(** * basestatus-processor: feed ingestion and event summarization

    A shallow embedding of [src/utils.js] ([processBatch], [processEvent])
    and of the three Express handlers of [src/index.js]
    ([/summarize-event], [/process-events], [/process-feeds]).

    The JavaScript is asynchronous and talks to three collaborators: the
    Supabase datastore, the RSS parser and the Anthropic client.  The
    embedding threads a [World] (the two tables, the response object [res]
    and a chronological trace of external calls and log lines) through a
    small monad with exceptions; what the collaborators answer in one run
    is fixed by an [Env].

    Conventions of the embedding:
    - [utils.js] names the clients [supabase] and [anthropic] without
      declaring them; they are taken to be the clients [index.js] creates.
    - A Supabase request settles with a [{ data, error }] pair and never
      rejects, which is how the sources read its answers; the RSS parser
      and the Anthropic client reject.
    - The members of one [Promise.all] are laid out in the trace one after
      the other, in the order of the array, and before what the caller does
      next.  For the upserts of one batch the trace keeps apart the moment
      a request leaves and the moment it settles.
    - The table [service_events] is a list of typed rows; an update sets the
      named columns on the rows its filter selects, or is refused.
    - A loop that the sources bound by an index is given [fuel]: running out
      of it is the result [Diverge]. *)

From Stdlib Require Import String Ascii DecimalString.
From Stdlib Require Import List ZArith Lia Bool Arith PeanoNat.
Import ListNotations.
Open Scope string_scope.
Open Scope list_scope.
Open Scope Z_scope.

Set Implicit Arguments.
Set Warnings "-register-all".

(** ** JavaScript values *)

(** The result of [JSON.parse].  Numbers are restricted to integers, which
    is what the column [accumulated_time_minutes] holds. *)
Inductive json : Type :=
| JNull
| JBool (b : bool)
| JNum (n : Z)
| JStr (s : string)
| JArr (l : list json)
| JObj (m : list (string * json)).

(** [!v] is false exactly on the truthy values. *)
Definition truthy (v : json) : bool :=
  match v with
  | JNull => false
  | JBool b => b
  | JNum n => negb (n =? 0)
  | JStr s => negb (String.eqb s "")
  | JArr _ => true
  | JObj _ => true
  end.

Definition nat_to_string (n : nat) : string :=
  NilZero.string_of_uint (Nat.to_uint n).

Definition Z_to_string (z : Z) : string :=
  NilZero.string_of_int (Z.to_int z).

Fixpoint index_from {A : Type} (k : nat) (l : list A) : list (string * A) :=
  match l with
  | [] => []
  | x :: l' => (nat_to_string k, x) :: index_from (S k) l'
  end.

Fixpoint chars (s : string) : list json :=
  match s with
  | EmptyString => []
  | String c s' => JStr (String c EmptyString) :: chars s'
  end.

(** The object literal [{ ...v }]: the own enumerable properties of [v]. *)
Definition spread (v : json) : list (string * json) :=
  match v with
  | JObj m => m
  | JArr l => index_from 0 l
  | JStr s => index_from 0 (chars s)
  | JNull | JBool _ | JNum _ => []
  end.

(** [Array.prototype.slice(start, end)], negative indexes counting from the
    end of the array. *)
Definition slice {A : Type} (l : list A) (start end_ : Z) : list A :=
  let len := Z.of_nat (length l) in
  let k := if start <? 0 then Z.max (len + start) 0 else Z.min start len in
  let final := if end_ <? 0 then Z.max (len + end_) 0 else Z.min end_ len in
  firstn (Z.to_nat (final - k)) (skipn (Z.to_nat k) l).

(** ** Data model *)

(** An item of a parsed feed, as rss-parser delivers it. *)
Module Item.
Record t : Type := mk
  { guid : string; title : string; content : string; isoDate : string }.
End Item.

(** What [parser.parseURL] resolves to; only [items] is read. *)
Record Feed : Type := mkFeed { items : list Item.t }.

(** A row of table [services], restricted to the selected columns. *)
Record Service : Type := mkService { svc_id : Z; feed_url : string }.

(** A row of table [service_events]. *)
Record Event : Type := mkEvent
  { id : Z;
    service_id : Z;
    guid : string;
    title : string;
    description : string;
    pub_date : string;
    status : option string;
    translated_description : option string;
    accumulated_time_minutes : option Z;
    severity : option string }.

(** The [{ data, error }] pair every Supabase request resolves to. *)
Record Response (A : Type) : Type := mkResponse
  { data : option A; error : option string }.

Definition ok {A : Type} (a : A) : Response A := mkResponse (Some a) None.
Definition failed {A : Type} (m : string) : Response A := mkResponse None (Some m).

(** The argument object of [supabase.rpc("upsert_service_event", ...)]. *)
Record RpcParams : Type := mkParams
  { p_service_id : Z;
    p_guid : string;
    p_title : string;
    p_description : string;
    p_pub_date : string }.

(** ** Effects *)

(** External calls and log lines, in the order they happen. *)
Inductive Effect : Type :=
| RpcSent (p : RpcParams)
| RpcSettled (p : RpcParams) (r : Response Z)
| SelectEvent (eventId : Z)
| SelectUnsummarized
| SelectServices
| DbUpdate (eventId : Z) (payload : list (string * json))
| LlmCall (input : string)
| FeedFetch (url : string)
| EventSummarized (eventId : Z)
| EventFailed (eventId : Z) (err : string)
| ConsoleLog (msg : string)
| ConsoleError (msg : string).

Record World : Type := mkWorld
  { services : list Service;
    service_events : list Event;
    next_id : Z;
    db_requests : nat;
    llm_calls : nat;
    trace : list Effect;
    res : option (Z * string) }.

(** What [anthropic.messages.create] followed by [msg.content[0].text]
    gives: a rejection, or a text, kept as [JSON.parse] reads it ([None]
    when [JSON.parse] throws a SyntaxError). *)
Inductive LlmReply : Type :=
| LlmRejects (msg : string)
| LlmText (parsed : option json).

(** The collaborators' answers in one run: the n-th datastore request may
    be rejected, the n-th completion answers a given input, a feed URL
    parses or fails. *)
Record Env : Type := mkEnv
  { db_fault : nat -> option string;
    llm : nat -> string -> LlmReply;
    parseURL : string -> option Feed }.

(** ** The monad of handlers *)

Inductive result (A : Type) : Type :=
| Return (a : A)
| Throw (e : string)
| Diverge.
Arguments Throw {A} e.
Arguments Diverge {A}.

Definition M (A : Type) : Type := World -> result A * World.

Definition ret {A : Type} (a : A) : M A := fun w => (Return a, w).

Definition bind {A B : Type} (m : M A) (k : A -> M B) : M B :=
  fun w =>
    match m w with
    | (Return a, w') => k a w'
    | (Throw e, w') => (Throw e, w')
    | (Diverge, w') => (Diverge, w')
    end.

Definition throw {A : Type} (e : string) : M A := fun w => (Throw e, w).

Definition diverge {A : Type} : M A := fun w => (Diverge, w).

(** [try { body } catch (error) { handler }]. *)
Definition try_catch {A : Type} (body : M A) (handler : string -> M A) : M A :=
  fun w =>
    match body w with
    | (Throw e, w') => handler e w'
    | r => r
    end.

Declare Scope monad_scope.
Delimit Scope monad_scope with monad.
Notation "x <- m ;; k" := (bind m (fun x => k))
  (at level 61, m at next level, right associativity) : monad_scope.
Notation "m ;; k" := (bind m (fun _ => k))
  (at level 61, right associativity) : monad_scope.
Open Scope monad_scope.

Definition set_trace (t : list Effect) (w : World) : World :=
  mkWorld (services w) (service_events w) (next_id w) (db_requests w)
          (llm_calls w) t (res w).

Definition set_events (t : list Event) (n : Z) (w : World) : World :=
  mkWorld (services w) t n (db_requests w) (llm_calls w) (trace w) (res w).

Definition log (e : Effect) : M unit :=
  fun w => (Return tt, set_trace (trace w ++ [e]) w).

(** Takes the number of the next datastore request. *)
Definition db_tick : M nat :=
  fun w => (Return (db_requests w),
            mkWorld (services w) (service_events w) (next_id w)
                    (S (db_requests w)) (llm_calls w) (trace w) (res w)).

Definition llm_tick : M nat :=
  fun w => (Return (llm_calls w),
            mkWorld (services w) (service_events w) (next_id w)
                    (db_requests w) (S (llm_calls w)) (trace w) (res w)).

(** [res.status(code).send(body)]. *)
Definition res_status_send (code : Z) (body : string) : M unit :=
  fun w => (Return tt,
            mkWorld (services w) (service_events w) (next_id w)
                    (db_requests w) (llm_calls w) (trace w) (Some (code, body))).

(** [Promise.all] over promises that are already running: every one of
    them runs to its end whatever the others do; the joined promise
    fulfils with all the values, or rejects with the first rejection.  A
    member that never settles is only possible for a batch of width 0,
    whose loop keeps the event loop busy for good. *)
Fixpoint Promise_all {A : Type} (ps : list (M A)) : M (list A) :=
  match ps with
  | [] => ret []
  | p :: ps' =>
      fun w =>
        match p w with
        | (Return a, w1) =>
            match Promise_all ps' w1 with
            | (Return l, w2) => (Return (a :: l), w2)
            | r => r
            end
        | (Throw e, w1) =>
            match Promise_all ps' w1 with
            | (Diverge, w2) => (Diverge, w2)
            | (_, w2) => (Throw e, w2)
            end
        | (Diverge, w1) => (Diverge, w1)
        end
  end.

(** Runs [f] on the elements one after the other; this is a [for] loop
    whose body is awaited, it stops at the first exception. *)
Fixpoint for_each {A B : Type} (f : A -> M B) (l : list A) : M (list B) :=
  match l with
  | [] => ret []
  | x :: l' => y <- f x ;; ys <- for_each f l' ;; ret (y :: ys)
  end.

(** ** The datastore *)

Definition same_key (serviceId : Z) (g : string) (e : Event) : bool :=
  (service_id e =? serviceId) && String.eqb (guid e) g.

Definition refresh (p : RpcParams) (e : Event) : Event :=
  mkEvent (id e) (service_id e) (guid e) (p_title p) (p_description p)
          (p_pub_date p) (status e) (translated_description e)
          (accumulated_time_minutes e) (severity e).

Definition fresh (newId : Z) (p : RpcParams) : Event :=
  mkEvent newId (p_service_id p) (p_guid p) (p_title p) (p_description p)
          (p_pub_date p) None None None None.

(** Modelled from the spec: the database function [upsert_service_event]
    called through [supabase.rpc] is not part of the sources.  Section 4.1:
    it inserts a new Event row if no row exists for (serviceId, guid);
    otherwise it updates title, description and publish timestamp of the
    existing row, leaving the structured fields untouched, and returns the
    affected row's identifier.  The result is the new table, the next
    identifier the datastore will assign, and the returned identifier. *)
Definition upsert_service_event (p : RpcParams) (tbl : list Event) (next : Z)
  : list Event * Z * Z :=
  match find (same_key (p_service_id p) (p_guid p)) tbl with
  | Some e =>
      (map (fun r => if same_key (p_service_id p) (p_guid p) r
                     then refresh p r else r) tbl,
       next, id e)
  | None => (tbl ++ [fresh next p], next + 1, next)
  end.

Section Program.

Variable env : Env.

(** The request of one [supabase.rpc("upsert_service_event", p)] leaves. *)
Definition rpc_send (p : RpcParams) : M unit := log (RpcSent p).

(** ... and settles: the datastore rejects it, or runs the function. *)
Definition rpc_settle (p : RpcParams) : M (Response Z) :=
  n <- db_tick ;;
  match db_fault env n with
  | Some m => log (RpcSettled p (failed m)) ;; ret (failed m)
  | None =>
      fun w =>
        match upsert_service_event p (service_events w) (next_id w) with
        | (tbl, next, rowId) =>
            (log (RpcSettled p (ok rowId)) ;; ret (ok rowId))
              (set_events tbl next w)
        end
  end.

(** [await Promise.all(batchPromises)] over the request builders of one
    batch: all the requests leave before the first of them settles, and a
    Supabase request settles with a [{ data, error }] pair, never with a
    rejection. *)
Definition Promise_all_rpc (batchPromises : list RpcParams)
  : M (list (Response Z)) :=
  for_each rpc_send batchPromises ;; for_each rpc_settle batchPromises.

(** ** src/utils.js: processBatch *)

Definition rpc_params (serviceId : Z) (item : Item.t) : RpcParams :=
  mkParams serviceId (Item.guid item) (Item.title item) (Item.content item)
           (Item.isoDate item).

(** The [for] loop of [processBatch]; [fuel] bounds the number of times the
    loop test is evaluated. *)
Fixpoint processBatch_loop (fuel : nat) (serviceId : Z) (items : list Item.t)
    (batchSize : Z) (i : Z) (results : list (Response Z))
  : M (list (Response Z)) :=
  match fuel with
  | O => diverge
  | S fuel' =>
      if i <? Z.of_nat (length items) then
        let batch := slice items i (i + batchSize) in
        let batchPromises := map (rpc_params serviceId) batch in
        batchResults <- Promise_all_rpc batchPromises ;;
        processBatch_loop fuel' serviceId items batchSize (i + batchSize)
                          (results ++ batchResults)
      else ret results
  end.

Definition processBatch (fuel : nat) (serviceId : Z) (items : list Item.t)
    (batchSize : Z) : M (Z * list (Response Z)) :=
  results <- processBatch_loop fuel serviceId items batchSize 0 [] ;;
  ret (serviceId, results).

(** *** Requests on table [service_events] and [services] *)

(** The datastore's typing of one column of [service_events]; [None] when
    the table has no such column or the value does not fit it. *)
Definition set_column (k : string) (v : json) (e : Event) : option Event :=
  let text (f : string -> Event) :=
    match v with JStr s => Some (f s) | _ => None end in
  let number (f : Z -> Event) :=
    match v with JNum n => Some (f n) | _ => None end in
  let nullable_text (f : option string -> Event) :=
    match v with JStr s => Some (f (Some s)) | JNull => Some (f None) | _ => None end in
  let nullable_number (f : option Z -> Event) :=
    match v with JNum n => Some (f (Some n)) | JNull => Some (f None) | _ => None end in
  if String.eqb k "id" then
    number (fun x => mkEvent x (service_id e) (guid e) (title e) (description e)
      (pub_date e) (status e) (translated_description e)
      (accumulated_time_minutes e) (severity e))
  else if String.eqb k "service_id" then
    number (fun x => mkEvent (id e) x (guid e) (title e) (description e)
      (pub_date e) (status e) (translated_description e)
      (accumulated_time_minutes e) (severity e))
  else if String.eqb k "guid" then
    text (fun x => mkEvent (id e) (service_id e) x (title e) (description e)
      (pub_date e) (status e) (translated_description e)
      (accumulated_time_minutes e) (severity e))
  else if String.eqb k "title" then
    text (fun x => mkEvent (id e) (service_id e) (guid e) x (description e)
      (pub_date e) (status e) (translated_description e)
      (accumulated_time_minutes e) (severity e))
  else if String.eqb k "description" then
    text (fun x => mkEvent (id e) (service_id e) (guid e) (title e) x
      (pub_date e) (status e) (translated_description e)
      (accumulated_time_minutes e) (severity e))
  else if String.eqb k "pub_date" then
    text (fun x => mkEvent (id e) (service_id e) (guid e) (title e)
      (description e) x (status e) (translated_description e)
      (accumulated_time_minutes e) (severity e))
  else if String.eqb k "status" then
    nullable_text (fun x => mkEvent (id e) (service_id e) (guid e) (title e)
      (description e) (pub_date e) x (translated_description e)
      (accumulated_time_minutes e) (severity e))
  else if String.eqb k "translated_description" then
    nullable_text (fun x => mkEvent (id e) (service_id e) (guid e) (title e)
      (description e) (pub_date e) (status e) x
      (accumulated_time_minutes e) (severity e))
  else if String.eqb k "accumulated_time_minutes" then
    nullable_number (fun x => mkEvent (id e) (service_id e) (guid e) (title e)
      (description e) (pub_date e) (status e) (translated_description e)
      x (severity e))
  else if String.eqb k "severity" then
    nullable_text (fun x => mkEvent (id e) (service_id e) (guid e) (title e)
      (description e) (pub_date e) (status e) (translated_description e)
      (accumulated_time_minutes e) x)
  else None.

Fixpoint apply_payload (payload : list (string * json)) (e : Event)
  : option Event :=
  match payload with
  | [] => Some e
  | (k, v) :: rest =>
      match set_column k v e with
      | Some e' => apply_payload rest e'
      | None => None
      end
  end.

(** The rows of the table after [update(payload).eq("id", eventId)]: the
    payload is applied to the rows the filter selects and to no other. *)
Fixpoint update_matching (payload : list (string * json)) (eventId : Z)
    (tbl : list Event) : option (list Event) :=
  match tbl with
  | [] => Some []
  | r :: rest =>
      match (if id r =? eventId then apply_payload payload r else Some r),
            update_matching payload eventId rest with
      | Some r', Some rest' => Some (r' :: rest')
      | _, _ => None
      end
  end.

Definition blank_event : Event :=
  mkEvent 0 0 "" "" "" "" None None None None.

(** The datastore refuses a payload that does not fit the columns, whether
    or not a row matches the filter; [None] stands for that refusal. *)
Definition update_rows (payload : list (string * json)) (eventId : Z)
    (tbl : list Event) : option (list Event) :=
  match apply_payload payload blank_event with
  | Some _ => update_matching payload eventId tbl
  | None => None
  end.

(** [supabase.from("service_events").update(payload).eq("id", eventId).select()];
    the rows it returns are not read by the program. *)
Definition supabase_update (payload : list (string * json)) (eventId : Z)
  : M (Response unit) :=
  log (DbUpdate eventId payload) ;;
  n <- db_tick ;;
  match db_fault env n with
  | Some m => ret (failed m)
  | None =>
      fun w =>
        match update_rows payload eventId (service_events w) with
        | Some tbl => (Return (ok tt), set_events tbl (next_id w) w)
        | None => (Return (failed "invalid input for service_events"), w)
        end
  end.

(** [supabase.from("service_events").select("*").eq("id", eventId)]. *)
Definition supabase_select_event (eventId : Z) : M (Response (list Event)) :=
  log (SelectEvent eventId) ;;
  n <- db_tick ;;
  match db_fault env n with
  | Some m => ret (failed m)
  | None =>
      fun w => (Return (ok (filter (fun e => id e =? eventId) (service_events w))), w)
  end.

Definition unsummarized (e : Event) : bool :=
  match translated_description e with None => true | Some _ => false end.

(** [supabase.from("service_events").select("*").is("translated_description", null)]. *)
Definition supabase_select_unsummarized : M (Response (list Event)) :=
  log SelectUnsummarized ;;
  n <- db_tick ;;
  match db_fault env n with
  | Some m => ret (failed m)
  | None => fun w => (Return (ok (filter unsummarized (service_events w))), w)
  end.

(** [supabase.from("services").select("id, feed_url")]. *)
Definition supabase_select_services : M (Response (list Service)) :=
  log SelectServices ;;
  n <- db_tick ;;
  match db_fault env n with
  | Some m => ret (failed m)
  | None => fun w => (Return (ok (services w)), w)
  end.

(** *** The other two collaborators *)

(** [await anthropic.messages.create({..., text: input})] and the read of
    [msg.content[0].text]. *)
Definition anthropic_messages_create (input : string) : M (option json) :=
  log (LlmCall input) ;;
  n <- llm_tick ;;
  match llm env n input with
  | LlmRejects m => throw m
  | LlmText t => ret t
  end.

Definition JSON_parse (text : option json) : M json :=
  match text with
  | Some v => ret v
  | None => throw "SyntaxError: Unexpected token in JSON"
  end.

(** [parser.parseURL(url)]. *)
Definition parser_parseURL (url : string) : M Feed :=
  log (FeedFetch url) ;;
  match parseURL env url with
  | Some feed => ret feed
  | None => throw "Error: feed could not be fetched or parsed"
  end.

(** ** src/utils.js: processEvent *)

Definition processEvent (event : Event) : M unit :=
  try_catch
    (msg <- anthropic_messages_create (description event) ;;
     res <- JSON_parse msg ;;
     (if negb (truthy res)
      then throw "Failed to generate message from Anthropic API"
      else ret tt) ;;
     r <- supabase_update (spread res) (id event) ;;
     match error r with
     | Some m => throw ("Failed to upsert data: " ++ m)
     | None => log (EventSummarized (id event))
     end)
    (fun err =>
       log (EventFailed (id event) err) ;;
       throw "Error processing event").

(** ** src/index.js: the handlers *)

(** [app.post("/summarize-event")], [eventId] being [req.body.eventId]. *)
Definition summarize_event (eventId : Z) : M unit :=
  log (ConsoleLog ("Started summarizing event " ++ Z_to_string eventId)) ;;
  try_catch
    (sel <- supabase_select_event eventId ;;
     eventData <-
       match error sel, data sel with
       | Some m, _ => throw ("Failed to fetch service event: " ++ m)
       | None, None | None, Some [] =>
           throw "Failed to fetch service event: Service event not found"
       | None, Some (e :: _) => ret e
       end ;;
     msg <- anthropic_messages_create (description eventData) ;;
     result <- JSON_parse msg ;;
     (if negb (truthy result)
      then throw "Failed to generate message from Anthropic API"
      else ret tt) ;;
     r <- supabase_update (spread result) eventId ;;
     match error r with
     | Some m => throw ("Failed to upsert data: " ++ m)
     | None =>
         log (ConsoleLog ("Successfully summarized event " ++ Z_to_string eventId)) ;;
         res_status_send 200 ("Successfully summarized event " ++ Z_to_string eventId)
     end)
    (fun err =>
       log (ConsoleError err) ;;
       res_status_send 500 ("Error: Unable to summarize " ++ Z_to_string eventId)).

Definition BATCH_SIZE : Z := 10.

(** The [for] loop of [/process-events]. *)
Fixpoint process_events_loop (fuel : nat) (events : list Event) (i : Z)
  : M unit :=
  match fuel with
  | O => diverge
  | S fuel' =>
      if i <? Z.of_nat (length events) then
        let batch := slice events i (i + BATCH_SIZE) in
        Promise_all (map processEvent batch) ;;
        process_events_loop fuel' events (i + BATCH_SIZE)
      else ret tt
  end.

(** [app.post("/process-events")].  The value is what the handler returns:
    the body of the [Response] object it builds on success, which Express
    does not send, and nothing after the [catch]. *)
Definition process_events : M (option string) :=
  try_catch
    (sel <- supabase_select_unsummarized ;;
     events <-
       match error sel, data sel with
       | Some m, _ => throw ("Failed to fetch service events: " ++ m)
       | None, None => throw "TypeError: Cannot read properties of null"
       | None, Some events => ret events
       end ;;
     process_events_loop (S (length events)) events 0 ;;
     ret (Some ("Successfully processed " ++ nat_to_string (length events)
                ++ " events")%string))
    (fun err =>
       log (ConsoleError err) ;;
       res_status_send 500 "Error while processing the events" ;;
       ret None).

(** [app.post("/process-feeds")].  The older copy of this handler, kept
    with [processBatch] inlined, runs the same statements and only adds
    console output after the second join and in a [finally] block. *)
Definition process_feeds : M unit :=
  try_catch
    (sel <- supabase_select_services ;;
     serviceData <-
       match error sel, data sel with
       | Some m, _ => throw m
       | None, None => throw "TypeError: Cannot read properties of null"
       | None, Some serviceData => ret serviceData
       end ;;
     let servicePromises :=
       map (fun service =>
              result <- parser_parseURL (feed_url service) ;;
              ret (result, svc_id service)) serviceData in
     serviceResults <- Promise_all servicePromises ;;
     let batchSize := 10 in
     let allProcessingPromises :=
       map (fun service : Feed * Z =>
              processBatch (S (length (items (fst service)))) (snd service)
                           (items (fst service)) batchSize) serviceResults in
     Promise_all allProcessingPromises ;;
     res_status_send 200 "Successfully parsed RSS feeds and items")
    (fun err =>
       log (ConsoleError err) ;;
       res_status_send 500 "Error while processing the feeds").

End Program.

(** ** src/index.js: the scheduler *)

(** What [await fetch(url, { method: "POST" })] resolves to, as far as the
    callback reads it. *)
Record FetchResponse : Type := mkFetchResponse
  { fetch_status : Z; fetch_body : string }.

(** [response.ok]. *)
Definition response_ok (response : FetchResponse) : bool :=
  (200 <=? fetch_status response) && (fetch_status response <=? 299).

(** The callback of [cron.schedule("* * * * *", ...)].  [fetch] is the
    request to [/process-feeds], [now] what [new Date()] reads,
    [toISOString] the method of that name, and the module variable
    [lastSuccessfulCronJob] is passed in and out.  In the branch of a
    response that is not ok, [response.json()] is logged as the pending
    promise it is; what becomes of that promise later is not followed. *)
Definition cron_job (toISOString : Z -> string) (fetch : M FetchResponse)
    (now : Z) (lastSuccessfulCronJob : option Z) (w : World)
  : result unit * World * option Z :=
  let (_, w0) := log (ConsoleLog "Running feed processing cron job") w in
  match fetch w0 with
  | (Return response, w1) =>
      if negb (response_ok response) then
        ((log (ConsoleLog "Promise { <pending> }") ;;
          log (ConsoleError ("Error in cron job: " ++ "HTTP error! status: "
                             ++ Z_to_string (fetch_status response)))) w1,
         lastSuccessfulCronJob)
      else
        (log (ConsoleLog ("Last successful cron job: " ++ toISOString now)) w1,
         Some now)
  | (Throw e, w1) =>
      (log (ConsoleError ("Error in cron job: " ++ e)) w1, lastSuccessfulCronJob)
  | (Diverge, w1) => (Diverge, w1, lastSuccessfulCronJob)
  end.

(** The callback as the older copy of [index.js] has it: no module
    variable, the text of the response is logged. *)
Definition cron_job_legacy (fetch : M FetchResponse) : M unit :=
  log (ConsoleLog "Running feed processing cron job") ;;
  try_catch
    (response <- fetch ;;
     (if negb (response_ok response)
      then throw ("HTTP error! status: " ++ Z_to_string (fetch_status response))
      else ret tt) ;;
     log (ConsoleLog ("Cron job completed: " ++ fetch_body response)))
    (fun err => log (ConsoleError ("Error in cron job: " ++ err))).

(** The request, when [BASESTATUS_PROCESSOR_URL] names this very server
    and the network delivers: Express runs the handler on a response
    object of its own, the request resolves with what the handler sends,
    and stays pending when the handler sends nothing. *)
Definition fetch_this_server (handler : M unit) : M FetchResponse :=
  fun w =>
    let w0 := mkWorld (services w) (service_events w) (next_id w)
                      (db_requests w) (llm_calls w) (trace w) None in
    match handler w0 with
    | (Return _, w') =>
        match res w' with
        | Some (code, body) => (Return (mkFetchResponse code body), w')
        | None => (Diverge, w')
        end
    | (_, w') => (Diverge, w')
    end.

(** ** The older copy of index.js

    It holds [processBatch] as [utils.js] has it, the scheduler callback
    [cron_job_legacy] above, and the handlers below.  The text of two of
    its console lines depends on the runtime: what [console.log] prints
    for the list of results and for the memory figures (computed from
    [process.memoryUsage()] by [bytesToMB], in floating point).  They are
    taken as given. *)

(** [try { body } finally { fin }]. *)
Definition try_finally {A : Type} (body : M A) (fin : M unit) : M A :=
  fun w =>
    match body w with
    | (Diverge, w') => (Diverge, w')
    | (r, w') =>
        match fin w' with
        | (Return _, w'') => (r, w'')
        | (Throw e, w'') => (Throw e, w'')
        | (Diverge, w'') => (Diverge, w'')
        end
    end.

(** [result !== null] on the answer of an upsert, which is an object. *)
Definition not_null (result : Response Z) : bool := true.

Section Legacy.

Variable env : Env.
Variable inspect_results : list (Response Z) -> string.
Variable memory_report : string.

(** The body of [allResults.forEach(({ results, batchAmount }) => ...)];
    [processBatch] returns no property [batchAmount]. *)
Definition report_batch (r : Z * list (Response Z)) : M unit :=
  let results := snd r in
  log (ConsoleLog (inspect_results results)) ;;
  let successfulOps := length (filter not_null results) in
  log (ConsoleLog (nat_to_string successfulOps
                   ++ "/undefined operations successful")).

(** [app.post("/process-feeds")] of the older copy. *)
Definition process_feeds_legacy : M unit :=
  try_finally
    (try_catch
       (sel <- supabase_select_services env ;;
        serviceData <-
          match error sel, data sel with
          | Some m, _ => throw m
          | None, None => throw "TypeError: Cannot read properties of null"
          | None, Some serviceData => ret serviceData
          end ;;
        let servicePromises :=
          map (fun service =>
                 result <- parser_parseURL env (feed_url service) ;;
                 ret (result, svc_id service)) serviceData in
        serviceResults <- Promise_all servicePromises ;;
        let batchSize := 10 in
        let allProcessingPromises :=
          map (fun service : Feed * Z =>
                 processBatch env (S (length (items (fst service)))) (snd service)
                              (items (fst service)) batchSize) serviceResults in
        allResults <- Promise_all allProcessingPromises ;;
        for_each report_batch allResults ;;
        res_status_send 200 "Successfully parsed RSS feeds and items")
       (fun err =>
          log (ConsoleError err) ;;
          res_status_send 500 "Error while processing the feeds"))
    (log (ConsoleLog "Memory usage difference (in MB):") ;;
     log (ConsoleLog memory_report)).

(** [app.post("/summarize-event")] of the older copy. *)
Definition summarize_event_legacy (eventId : Z) : M unit :=
  try_catch
    (sel <- supabase_select_event env eventId ;;
     eventData <-
       match error sel, data sel with
       | Some m, _ => throw ("Failed to fetch service event: " ++ m)
       | None, None | None, Some [] =>
           throw "Failed to fetch service event: Service event not found"
       | None, Some (e :: _) => ret e
       end ;;
     msg <- anthropic_messages_create env (description eventData) ;;
     result <- JSON_parse msg ;;
     (if negb (truthy result)
      then throw "Failed to generate message from Anthropic API"
      else ret tt) ;;
     r <- supabase_update env (spread result) eventId ;;
     match error r with
     | Some m => throw ("Failed to upsert data: " ++ m)
     | None =>
         res_status_send 200 ("Successfully summarized event " ++ Z_to_string eventId)
     end)
    (fun err =>
       log (ConsoleError err) ;;
       res_status_send 500 ("Error: Unable to summarize " ++ Z_to_string eventId)).

End Legacy.

(** The trace without the console lines. *)
Definition is_console (e : Effect) : bool :=
  match e with
  | ConsoleLog _ | ConsoleError _ => true
  | _ => false
  end.

Definition external (tr : list Effect) : list Effect :=
  filter (fun e => negb (is_console e)) tr.

(** ** Reading a trace *)

(** The number of upsert requests that have left and not yet settled. *)
Definition in_flight_step (n : Z) (e : Effect) : Z :=
  match e with
  | RpcSent _ => n + 1
  | RpcSettled _ _ => n - 1
  | _ => n
  end.

Definition in_flight (tr : list Effect) : Z := fold_left in_flight_step tr 0.

Definition is_sent (e : Effect) : bool :=
  match e with RpcSent _ => true | _ => false end.

(** The stretch of trace one group of a batch leaves behind: its requests
    leave in order, then they settle. *)
Definition group_trace (serviceId : Z) (g : list Item.t * list (Response Z))
  : list Effect :=
  map (fun item => RpcSent (rpc_params serviceId item)) (fst g)
  ++ map (fun pr => RpcSettled (rpc_params serviceId (fst pr)) (snd pr))
         (combine (fst g) (snd g)).

(** Every group but the last one holds exactly [n] items. *)
Fixpoint full_but_last {A : Type} (n : nat) (groups : list (list A)) : Prop :=
  match groups with
  | [] => True
  | g :: rest =>
      match rest with
      | [] => True
      | _ :: _ => length g = n
      end /\ full_but_last n rest
  end.

Definition has_row (serviceId : Z) (g : string) (tbl : list Event) : bool :=
  existsb (same_key serviceId g) tbl.

(** The upserts the trace shows leaving, and those it shows settling with
    their answers. *)
Fixpoint sent_requests (tr : list Effect) : list RpcParams :=
  match tr with
  | [] => []
  | RpcSent p :: tr' => p :: sent_requests tr'
  | _ :: tr' => sent_requests tr'
  end.

Fixpoint settled_requests (tr : list Effect) : list (RpcParams * Response Z) :=
  match tr with
  | [] => []
  | RpcSettled p r :: tr' => (p, r) :: settled_requests tr'
  | _ :: tr' => settled_requests tr'
  end.

(** The largest number of requests in flight at any instant of the trace,
    computed in one pass from a running count. *)
Fixpoint peak_from (n : Z) (tr : list Effect) : Z :=
  match tr with
  | [] => n
  | e :: tr' => Z.max n (peak_from (in_flight_step n e) tr')
  end.

Definition peak_in_flight (tr : list Effect) : Z := peak_from 0 tr.

(** The inputs of the completions the trace shows, the payloads of the
    updates with the identifier they were filtered on, and the outcome
    [processEvent] logged for each event ([true] for the success line). *)
Fixpoint llm_inputs (tr : list Effect) : list string :=
  match tr with
  | [] => []
  | LlmCall input :: tr' => input :: llm_inputs tr'
  | _ :: tr' => llm_inputs tr'
  end.

Fixpoint updates (tr : list Effect) : list (Z * list (string * json)) :=
  match tr with
  | [] => []
  | DbUpdate eventId payload :: tr' => (eventId, payload) :: updates tr'
  | _ :: tr' => updates tr'
  end.

Fixpoint summaries (tr : list Effect) : list (Z * bool) :=
  match tr with
  | [] => []
  | EventSummarized eventId :: tr' => (eventId, true) :: summaries tr'
  | EventFailed eventId _ :: tr' => (eventId, false) :: summaries tr'
  | _ :: tr' => summaries tr'
  end.

Fixpoint feeds_fetched (tr : list Effect) : list string :=
  match tr with
  | [] => []
  | FeedFetch url :: tr' => url :: feeds_fetched tr'
  | _ :: tr' => feeds_fetched tr'
  end.

(** ** The response schema of the specification

    Following the words of sections 3 and 4.4: a JSON object with exactly
    the four structured fields, no other field, a recognized status and
    severity, a text for the description and a number of minutes that is
    null or not negative. *)

Definition spec_statuses : list string :=
  ["investigating"; "ongoing"; "resolved"; "maintenance"].

Definition spec_severities : list string :=
  ["critical"; "major"; "minor"; "maintenance"].

Fixpoint field (k : string) (m : list (string * json)) : option json :=
  match m with
  | [] => None
  | (k', v) :: m' => if String.eqb k k' then Some v else field k m'
  end.

Definition spec_schema_ok (v : json) : bool :=
  match v with
  | JObj m =>
      (length m =? 4)%nat
      && match field "status" m, field "translated_description" m,
               field "accumulated_time_minutes" m, field "severity" m with
         | Some (JStr st), Some (JStr _), Some minutes, Some (JStr sv) =>
             existsb (String.eqb st) spec_statuses
             && existsb (String.eqb sv) spec_severities
             && match minutes with
                | JNull => true
                | JNum n => 0 <=? n
                | _ => false
                end
         | _, _, _, _ => false
         end
  | _ => false
  end.

(** What survives an upsert: the response object, the other table, the
    count of completions, and every natural key already in the table. *)
Definition batch_frame (w w' : World) : Prop :=
  res w' = res w /\ services w' = services w /\ llm_calls w' = llm_calls w
  /\ forall s g, has_row s g (service_events w) = true ->
                 has_row s g (service_events w') = true.


Definition is_return {A : Type} (r : result A) : bool :=
  match r with Return _ => true | _ => false end.

(** ** Sample data

    The scenario of the specification: service A publishes one item, the
    completion answers with the four structured fields. *)

Definition item_g1 : Item.t :=
  Item.mk "g1" "Incident" "<p>...</p>" "2024-07-19T14:29:00Z".

Definition example_summary : json :=
  JObj [("status", JStr "resolved");
        ("translated_description", JStr "<p>...</p>");
        ("accumulated_time_minutes", JNum 5);
        ("severity", JStr "minor")].

(** Collaborators that never fail. *)
Definition quiet_env : Env :=
  mkEnv (fun _ => None)
        (fun _ _ => LlmText (Some example_summary))
        (fun _ => Some (mkFeed [item_g1])).

Definition empty_world : World := mkWorld [] [] 1 0 0 [] None.

(** [n] items with the guids g0, g1, ... *)
Definition numbered_items (n : nat) : list Item.t :=
  map (fun k => Item.mk ("g" ++ nat_to_string k) "Incident" "<p>...</p>"
                        "2024-07-19T14:29:00Z") (seq 0 n).

(** The four fields only a summarization may set. *)
Definition structured (e : Event)
  : option string * option string * option Z * option string :=
  (status e, translated_description e, accumulated_time_minutes e, severity e).

(** One unsummarized event, as the first ingestion of [item_g1] for
    service 7 leaves it. *)
Definition event_g1 : Event :=
  mkEvent 1 7 "g1" "Incident" "<p>...</p>" "2024-07-19T14:29:00Z"
          None None None None.

Definition world_g1 : World := mkWorld [] [event_g1] 2 0 0 [] None.

(** A completion that answers with a single field. *)
Definition status_only : json := JObj [("status", JStr "resolved")].

Definition status_only_env : Env :=
  mkEnv (fun _ => None) (fun _ _ => LlmText (Some status_only)) (fun _ => None).

(** An event whose description is empty. *)
Definition event_blank : Event :=
  mkEvent 1 7 "g1" "Incident" "" "2024-07-19T14:29:00Z" None None None None.

Definition world_blank : World := mkWorld [] [event_blank] 2 0 0 [] None.

(** [n] unsummarized events of service 7, with the identifiers 1 to [n]. *)
Definition numbered_events (n : nat) : list Event :=
  map (fun k => mkEvent (Z.of_nat (S k)) 7 ("g" ++ nat_to_string k) "Incident"
                        "<p>...</p>" "2024-07-19T14:29:00Z" None None None None)
      (seq 0 n).

Definition world_11 : World := mkWorld [] (numbered_events 11) 12 0 0 [] None.

(** The first completion does not answer with JSON, the later ones do. *)
Definition first_reply_broken_env : Env :=
  mkEnv (fun _ => None)
        (fun n _ => match n with
                    | O => LlmText None
                    | S _ => LlmText (Some example_summary)
                    end)
        (fun _ => None).

(** Whether the feed of a service parses in this run, and what it holds. *)
Definition feed_parses (env : Env) (s : Service) : bool :=
  match parseURL env (feed_url s) with Some _ => true | None => false end.

Definition feed_of (env : Env) (s : Service) : Feed :=
  match parseURL env (feed_url s) with Some f => f | None => mkFeed [] end.

(** Three services; the feed of the second one cannot be reached. *)
Definition three_services : list Service :=
  [mkService 1 "https://one.example/feed";
   mkService 2 "https://two.example/feed";
   mkService 3 "https://three.example/feed"].

Definition world_three : World := mkWorld three_services [] 1 0 0 [] None.

Definition second_feed_down_env : Env :=
  mkEnv (fun _ => None)
        (fun _ _ => LlmText (Some example_summary))
        (fun url => if String.eqb url "https://two.example/feed"
                    then None else Some (mkFeed [item_g1])).

(** ** Comparing runs *)

(** Two worlds agree on everything but the trace. *)
Definition same_tables (w1 w2 : World) : Prop :=
  services w1 = services w2
  /\ service_events w1 = service_events w2
  /\ next_id w1 = next_id w2
  /\ db_requests w1 = db_requests w2
  /\ llm_calls w1 = llm_calls w2
  /\ res w1 = res w2.

(** ** What a summarization may touch *)

(** The columns the prompt allows the completion to name. *)
Definition structured_columns : list string :=
  ["status"; "translated_description"; "accumulated_time_minutes"; "severity"].

Definition names_structured_only (payload : list (string * json)) : bool :=
  forallb (fun kv => existsb (String.eqb (fst kv)) structured_columns) payload.

(** The columns an ingestion fills. *)
Definition raw (e : Event) : Z * Z * string * string * string * string :=
  (id e, service_id e, guid e, title e, description e, pub_date e).

(** ** Summarizing one event after the other *)

(** The world after [processEvent] has run on each event in turn, every
    run to its end, whether it failed or not. *)
Definition summarize_in_turn (env : Env) (events : list Event) (w : World)
  : World :=
  fold_left (fun w e => snd (processEvent env e w)) events w.

(** A completion the datastore takes and that fills the description: an
    object whose properties are structured fields with values of their
    column's kind, with a text for [translated_description]. *)
Definition entry_fits (kv : string * json) : bool :=
  let (k, v) := kv in
  if String.eqb k "translated_description" then
    match v with JStr _ => true | _ => false end
  else if String.eqb k "status" || String.eqb k "severity" then
    match v with JStr _ | JNull => true | _ => false end
  else if String.eqb k "accumulated_time_minutes" then
    match v with JNum _ | JNull => true | _ => false end
  else false.

Definition names_description (kv : string * json) : bool :=
  String.eqb (fst kv) "translated_description".

Definition fills_description (v : json) : bool :=
  match v with
  | JObj m => forallb entry_fits m && existsb names_description m
  | _ => false
  end.

(** What an accepted update of the rows with the identifier [eventId],
    whose payload fills the description, makes of a row. *)
Definition summarized_by (eventId : Z) (r r' : Event) : Prop :=
  id r' = id r
  /\ (unsummarized r' = true -> unsummarized r = true /\ id r <> eventId).

(** *** The stages of the fan-out, for comparing the two copies *)

(** What the older handler adds between the join and the answer. *)
Definition report_lines (inspect_results : list (Response Z) -> string)
    (l : list (Z * list (Response Z))) : list Effect :=
  flat_map (fun r => [ConsoleLog (inspect_results (snd r));
                      ConsoleLog (nat_to_string (length (filter not_null (snd r)))
                                  ++ "/undefined operations successful")]) l.

(** The world after the list of services has loaded and the feeds have
    been fetched. *)
Definition after_fetches (w : World) : World :=
  mkWorld (services w) (service_events w) (next_id w) (S (db_requests w))
          (llm_calls w)
          ((trace w ++ [SelectServices])
           ++ map FeedFetch (map feed_url (services w))) (res w).

(** The second join, over the batches of all services. *)
Definition fan_out (env : Env) (w : World)
  : result (list (Z * list (Response Z))) * World :=
  Promise_all
    (map (fun service : Feed * Z =>
            processBatch env (S (length (items (fst service)))) (snd service)
                         (items (fst service)) 10)
         (map (fun s => (feed_of env s, svc_id s)) (services w)))
    (after_fetches w).

(** The [catch] block and the [finally] block. *)
Definition answer_500 (err : string) : M unit :=
  log (ConsoleError err) ;;
  res_status_send 500 "Error while processing the feeds".

Definition memory_lines (memory_report : string) : M unit :=
  log (ConsoleLog "Memory usage difference (in MB):") ;;
  log (ConsoleLog memory_report).

(** * Properties *)

(** ** Lists and slices *)

Lemma firstn_min_length (A : Type) (n : nat) (l : list A) :
  firstn (Nat.min n (length l)) l = firstn n l.
Proof.
  destruct (Nat.le_ge_cases n (length l)) as [H | H].
  - now rewrite Nat.min_l.
  - rewrite Nat.min_r by assumption.
    now rewrite firstn_all, firstn_all2.
Qed.

(** Inside the array and with a positive width, [slice] is the next
    [batchSize] items. *)
Lemma slice_group (A : Type) (l : list A) (k : nat) (b : Z) :
  1 <= b -> (k < length l)%nat ->
  slice l (Z.of_nat k) (Z.of_nat k + b) = firstn (Z.to_nat b) (skipn k l).
Proof.
  intros Hb Hk. unfold slice.
  destruct (Z.of_nat k <? 0) eqn:E1; [apply Z.ltb_lt in E1; lia |].
  destruct (Z.of_nat k + b <? 0) eqn:E2; [apply Z.ltb_lt in E2; lia |].
  rewrite (Z.min_l (Z.of_nat k)) by lia.
  rewrite Nat2Z.id.
  rewrite <- (firstn_min_length (Z.to_nat b)).
  f_equal. rewrite length_skipn. lia.
Qed.

(** With width 0 the slice taken at index 0 is empty. *)
Lemma slice_empty (A : Type) (l : list A) : slice l 0 0 = [].
Proof.
  unfold slice. simpl. rewrite Z.min_l by lia. reflexivity.
Qed.

(** ** One group of upserts *)

Lemma in_flight_shift (q : list Effect) (n : Z) :
  fold_left in_flight_step q n = n + fold_left in_flight_step q 0.
Proof.
  revert n. induction q as [| e q IH]; intros n; simpl.
  - lia.
  - rewrite (IH (in_flight_step n e)), (IH (in_flight_step 0 e)).
    destruct e; unfold in_flight_step; lia.
Qed.

Lemma in_flight_app (p q : list Effect) :
  in_flight (p ++ q) = in_flight p + in_flight q.
Proof.
  unfold in_flight. rewrite fold_left_app. apply in_flight_shift.
Qed.

Lemma in_flight_le_sent (p : list Effect) :
  in_flight p <= Z.of_nat (length (filter is_sent p)).
Proof.
  induction p as [| e p IH] using rev_ind; simpl.
  - reflexivity.
  - rewrite in_flight_app, filter_app, length_app.
    unfold in_flight at 2.
    destruct e; cbn [fold_left in_flight_step filter is_sent length]; lia.
Qed.

Lemma batch_frame_refl (w : World) : batch_frame w w.
Proof. unfold batch_frame; auto. Qed.

Lemma batch_frame_trans (w1 w2 w3 : World) :
  batch_frame w1 w2 -> batch_frame w2 w3 -> batch_frame w1 w3.
Proof.
  unfold batch_frame. intros (A1 & B1 & C1 & D1) (A2 & B2 & C2 & D2).
  repeat split; try congruence. auto.
Qed.

Lemma upsert_keeps_rows (p : RpcParams) (tbl : list Event) (next : Z) (s : Z) (g : string) :
  has_row s g tbl = true ->
  has_row s g (fst (fst (upsert_service_event p tbl next))) = true.
Proof.
  unfold upsert_service_event, has_row. intros H.
  destruct (find _ tbl); simpl.
  - apply existsb_exists in H. destruct H as (x & Hin & Hx).
    apply existsb_exists.
    exists (if same_key (p_service_id p) (p_guid p) x then refresh p x else x).
    split.
    + apply (in_map (fun r => if same_key (p_service_id p) (p_guid p) r
                              then refresh p r else r)) in Hin. exact Hin.
    + destruct (same_key (p_service_id p) (p_guid p) x); exact Hx.
  - rewrite existsb_app, H. reflexivity.
Qed.

Lemma same_key_refl (s : Z) (g : string) (e : Event) :
  service_id e = s -> guid e = g -> same_key s g e = true.
Proof.
  intros <- <-. unfold same_key. now rewrite Z.eqb_refl, String.eqb_refl.
Qed.

Lemma upsert_has_row (p : RpcParams) (tbl : list Event) (next : Z) :
  has_row (p_service_id p) (p_guid p)
          (fst (fst (upsert_service_event p tbl next))) = true.
Proof.
  unfold upsert_service_event.
  destruct (find _ tbl) eqn:F; simpl.
  - apply find_some in F. destruct F as [Hin He].
    assert (H : has_row (p_service_id p) (p_guid p) tbl = true)
      by (apply existsb_exists; eauto).
    pose proof (upsert_keeps_rows p tbl next _ _ H) as K.
    unfold upsert_service_event in K.
    destruct (find _ tbl) eqn:F' in K; simpl in K; [exact K |].
    apply find_none with (x := e) in F'; congruence.
  - unfold has_row. rewrite existsb_app. simpl.
    rewrite same_key_refl by reflexivity. now rewrite orb_true_r.
Qed.

Section BatchFacts.

Variable env : Env.

Lemma for_each_rpc_send (ps : list RpcParams) (w : World) :
  for_each rpc_send ps w =
  (Return (map (fun _ => tt) ps), set_trace (trace w ++ map RpcSent ps) w).
Proof.
  revert w. induction ps as [| p ps IH]; intros w; simpl.
  - unfold ret, set_trace. rewrite app_nil_r. now destruct w.
  - unfold bind at 1. unfold rpc_send at 1, log.
    unfold bind at 1. rewrite IH. unfold ret, set_trace. simpl.
    now rewrite <- app_assoc.
Qed.

Lemma rpc_settle_spec (p : RpcParams) (w : World) :
  exists r w',
    rpc_settle env p w = (Return r, w')
    /\ trace w' = trace w ++ [RpcSettled p r]
    /\ db_requests w' = S (db_requests w)
    /\ error r = db_fault env (db_requests w)
    /\ (error r = None ->
        has_row (p_service_id p) (p_guid p) (service_events w') = true)
    /\ batch_frame w w'.
Proof.
  unfold rpc_settle, bind, db_tick. simpl.
  destruct (db_fault env (db_requests w)) as [m |] eqn:F.
  - eexists _, _. unfold log, ret, set_trace; simpl.
    split; [reflexivity |]. simpl.
    repeat split; auto. discriminate.
  - simpl.
    pose proof (upsert_has_row p (service_events w) (next_id w)) as Hrow.
    pose proof (upsert_keeps_rows p (service_events w) (next_id w)) as Hkeep.
    destruct (upsert_service_event p (service_events w) (next_id w))
      as [[tbl next] rowId].
    eexists _, _. unfold log, ret, set_trace, set_events; simpl.
    split; [reflexivity |]. simpl in *.
    repeat split; auto.
Qed.

Lemma for_each_rpc_settle (ps : list RpcParams) (w : World) :
  exists rs w',
    for_each (rpc_settle env) ps w = (Return rs, w')
    /\ length rs = length ps
    /\ trace w' = trace w ++ map (fun pr => RpcSettled (fst pr) (snd pr)) (combine ps rs)
    /\ db_requests w' = (db_requests w + length ps)%nat
    /\ (forall j p, nth_error ps j = Some p ->
          exists r, nth_error rs j = Some r
                    /\ error r = db_fault env (db_requests w + j)%nat
                    /\ (error r = None ->
                        has_row (p_service_id p) (p_guid p) (service_events w') = true))
    /\ batch_frame w w'.
Proof.
  revert w. induction ps as [| p ps IH]; intros w; simpl.
  - exists [], w. unfold ret. rewrite app_nil_r.
    repeat split; auto using batch_frame_refl; try lia.
    intros j p H. now rewrite nth_error_nil in H.
  - destruct (rpc_settle_spec p w) as (r & w1 & E1 & T1 & D1 & F1 & R1 & B1).
    destruct (IH w1) as (rs & w2 & E2 & L2 & T2 & D2 & N2 & B2).
    exists (r :: rs), w2. unfold bind. rewrite E1, E2. unfold ret.
    split; [reflexivity |]. simpl.
    split; [now rewrite L2 |].
    split; [rewrite T2, T1, <- app_assoc; reflexivity |].
    split; [lia |].
    split; [| eapply batch_frame_trans; eauto].
    intros [| j] q Hq; simpl in *.
    + inversion Hq; subst q. exists r. rewrite Nat.add_0_r.
      repeat split; auto. intros He.
      destruct B2 as (_ & _ & _ & K). apply K. auto.
    + destruct (N2 j q Hq) as (r' & Hr' & Fr' & Rr').
      exists r'. repeat split; auto.
      rewrite Fr'. f_equal. lia.
Qed.

Lemma combine_map_l (A B C : Type) (f : A -> B) (l : list A) (rs : list C) :
  combine (map f l) rs = map (fun pr => (f (fst pr), snd pr)) (combine l rs).
Proof.
  revert rs. induction l as [| x l IH]; intros [| r rs]; simpl; auto.
  now rewrite IH.
Qed.

(** One group: every request leaves, every request settles, and the answer
    to the j-th item is an error exactly when the datastore rejects the
    j-th request. *)
Lemma Promise_all_rpc_spec (serviceId : Z) (g : list Item.t) (w : World) :
  exists rs w',
    Promise_all_rpc env (map (rpc_params serviceId) g) w = (Return rs, w')
    /\ length rs = length g
    /\ trace w' = trace w ++ group_trace serviceId (g, rs)
    /\ db_requests w' = (db_requests w + length g)%nat
    /\ (forall j item, nth_error g j = Some item ->
          exists r, nth_error rs j = Some r
                    /\ error r = db_fault env (db_requests w + j)%nat
                    /\ (error r = None ->
                        has_row serviceId (Item.guid item) (service_events w') = true))
    /\ batch_frame w w'.
Proof.
  unfold Promise_all_rpc, bind. rewrite for_each_rpc_send.
  destruct (for_each_rpc_settle (map (rpc_params serviceId) g)
              (set_trace (trace w ++ map RpcSent (map (rpc_params serviceId) g)) w))
    as (rs & w' & E & L & T & D & N & B).
  exists rs, w'. rewrite E. rewrite length_map in L, D.
  split; [reflexivity |]. split; [exact L |].
  split.
  { rewrite T. simpl. rewrite <- app_assoc. f_equal.
    unfold group_trace. simpl. rewrite map_map. f_equal.
    rewrite combine_map_l, map_map. reflexivity. }
  split; [exact D |].
  split; [| exact B].
  intros j item Hj.
  destruct (N j (rpc_params serviceId item)) as (r & Hr & Fr & Rr).
  { now rewrite nth_error_map, Hj. }
  exists r. auto.
Qed.

(** The loop, read group by group.  It returns as soon as it has more fuel
    than items left. *)
Lemma processBatch_loop_spec (serviceId : Z) (items : list Item.t) (b : Z) :
  1 <= b ->
  forall (fuel k : nat) (results : list (Response Z)) (w : World),
    (length items - k < fuel)%nat ->
    exists groups w',
      processBatch_loop env fuel serviceId items b (Z.of_nat k) results w
      = (Return (results ++ concat (map snd groups)), w')
      /\ concat (map fst groups) = skipn k items
      /\ Forall (fun g => (1 <= length (fst g) <= Z.to_nat b)%nat
                          /\ length (snd g) = length (fst g)) groups
      /\ full_but_last (Z.to_nat b) (map fst groups)
      /\ trace w' = trace w ++ flat_map (group_trace serviceId) groups
      /\ db_requests w' = (db_requests w + length (skipn k items))%nat
      /\ (forall j item, nth_error (skipn k items) j = Some item ->
            exists r, nth_error (concat (map snd groups)) j = Some r
                      /\ error r = db_fault env (db_requests w + j)%nat
                      /\ (error r = None ->
                          has_row serviceId (Item.guid item) (service_events w') = true))
      /\ batch_frame w w'.
Proof.
  intros Hb. induction fuel as [| fuel IH]; intros k results w Hfuel; [lia |].
  simpl. destruct (Z.of_nat k <? Z.of_nat (length items)) eqn:Hlt.
  - apply Z.ltb_lt in Hlt. assert (Hk : (k < length items)%nat) by lia.
    rewrite slice_group by assumption.
    set (nb := Z.to_nat b). set (g := firstn nb (skipn k items)).
    destruct (Promise_all_rpc_spec serviceId g w)
      as (rs & w1 & E1 & L1 & T1 & D1 & N1 & B1).
    assert (Hg : (1 <= length g <= nb)%nat).
    { unfold g. rewrite length_firstn, length_skipn. lia. }
    replace (Z.of_nat k + b) with (Z.of_nat (k + nb)) by (unfold nb; lia).
    destruct (IH (k + nb)%nat (results ++ rs) w1) as
      (groups & w2 & E2 & C2 & F2 & S2 & T2 & D2 & N2 & B2); [lia |].
    assert (Hskip : skipn (k + nb) items = skipn nb (skipn k items))
      by (rewrite skipn_skipn; f_equal; lia).
    assert (Hsplit : skipn k items = g ++ skipn (k + nb) items)
      by (rewrite Hskip; unfold g; now rewrite firstn_skipn).
    exists ((g, rs) :: groups), w2. unfold bind. rewrite E1, E2.
    split; [simpl; now rewrite <- app_assoc |].
    split; [simpl; now rewrite C2 |].
    split; [constructor; auto |].
    split.
    { simpl. split; [| exact S2].
      destruct groups as [| g2 groups']; simpl; [exact I |].
      inversion F2 as [| ? ? [Hg2 _] _]; subst.
      assert (Hne : (0 < length (skipn (k + nb) items))%nat).
      { rewrite <- C2. simpl. rewrite length_app. lia. }
      rewrite length_skipn in Hne. unfold g.
      rewrite length_firstn, length_skipn. lia. }
    split; [simpl; rewrite T2, T1, <- app_assoc; reflexivity |].
    split; [rewrite D2, D1, Hsplit at 1; rewrite length_app; lia |].
    split; [| eapply batch_frame_trans; eauto].
    intros j item Hj. rewrite Hsplit in Hj. simpl.
    destruct (Nat.lt_ge_cases j (length g)) as [Hjg | Hjg].
    + rewrite nth_error_app1 in Hj by assumption.
      destruct (N1 j item Hj) as (r & Hr & Fr & Rr).
      exists r. rewrite nth_error_app1 by lia.
      repeat split; auto. intros He.
      destruct B2 as (_ & _ & _ & K). auto.
    + rewrite nth_error_app2 in Hj by assumption.
      destruct (N2 _ item Hj) as (r & Hr & Fr & Rr).
      exists r. rewrite nth_error_app2 by lia. rewrite L1.
      repeat split; auto. rewrite Fr. f_equal. lia.
  - apply Z.ltb_ge in Hlt.
    exists [], w. unfold ret. simpl.
    rewrite skipn_all2 by lia. rewrite !app_nil_r. simpl.
    repeat split; auto using batch_frame_refl; try lia.
    intros j item Hj. now rewrite nth_error_nil in Hj.
Qed.

End BatchFacts.

(** ** processBatch *)

Lemma combine_app_same (A B : Type) (a a' : list A) (c c' : list B) :
  length a = length c ->
  combine (a ++ a') (c ++ c') = combine a c ++ combine a' c'.
Proof.
  revert c. induction a as [| x a IH]; intros [| y c] H; simpl in *;
    try discriminate; auto.
  f_equal. apply IH. lia.
Qed.

Lemma sent_requests_app (p q : list Effect) :
  sent_requests (p ++ q) = sent_requests p ++ sent_requests q.
Proof.
  induction p as [| e p IH]; simpl; auto. destruct e; simpl; now rewrite ?IH.
Qed.

Lemma settled_requests_app (p q : list Effect) :
  settled_requests (p ++ q) = settled_requests p ++ settled_requests q.
Proof.
  induction p as [| e p IH]; simpl; auto. destruct e; simpl; now rewrite ?IH.
Qed.

Lemma group_trace_sent (serviceId : Z) (g : list Item.t) (rs : list (Response Z)) :
  sent_requests (group_trace serviceId (g, rs)) = map (rpc_params serviceId) g.
Proof.
  unfold group_trace. rewrite sent_requests_app. simpl.
  assert (H : forall l : list (Item.t * Response Z),
             sent_requests (map (fun pr => RpcSettled (rpc_params serviceId (fst pr)) (snd pr)) l) = []).
  { induction l; simpl; auto. }
  rewrite H, app_nil_r. clear H.
  induction g; simpl; congruence.
Qed.

Lemma group_trace_settled (serviceId : Z) (g : list Item.t) (rs : list (Response Z)) :
  settled_requests (group_trace serviceId (g, rs))
  = combine (map (rpc_params serviceId) g) rs.
Proof.
  unfold group_trace. rewrite settled_requests_app. simpl.
  assert (H : settled_requests (map (fun item => RpcSent (rpc_params serviceId item)) g) = []).
  { induction g; simpl; auto. }
  rewrite H. simpl. clear H. rewrite combine_map_l.
  induction (combine g rs) as [| pr l IH]; simpl; congruence.
Qed.

Lemma group_trace_count (serviceId : Z) (g : list Item.t) (rs : list (Response Z)) :
  length (filter is_sent (group_trace serviceId (g, rs))) = length g.
Proof.
  unfold group_trace. rewrite filter_app, length_app. simpl.
  assert (H : forall l : list (Item.t * Response Z),
             filter is_sent (map (fun pr => RpcSettled (rpc_params serviceId (fst pr)) (snd pr)) l) = []).
  { induction l; simpl; auto. }
  rewrite H. simpl. clear H. rewrite Nat.add_0_r.
  induction g; simpl; congruence.
Qed.

Lemma group_trace_settles_all (serviceId : Z) (g : list Item.t) (rs : list (Response Z)) :
  length rs = length g -> in_flight (group_trace serviceId (g, rs)) = 0.
Proof.
  intros L. unfold group_trace. rewrite in_flight_app. simpl.
  assert (H1 : forall l : list Item.t,
             in_flight (map (fun item => RpcSent (rpc_params serviceId item)) l)
             = Z.of_nat (length l)).
  { induction l as [| x l IH]; [reflexivity |].
    change (in_flight ([RpcSent (rpc_params serviceId x)]
                       ++ map (fun item => RpcSent (rpc_params serviceId item)) l)
            = Z.of_nat (S (length l))).
    rewrite in_flight_app, IH. unfold in_flight. simpl fold_left.
    unfold in_flight_step. lia. }
  assert (H2 : forall l : list (Item.t * Response Z),
             in_flight (map (fun pr => RpcSettled (rpc_params serviceId (fst pr)) (snd pr)) l)
             = - Z.of_nat (length l)).
  { induction l as [| x l IH]; [reflexivity |].
    change (in_flight ([RpcSettled (rpc_params serviceId (fst x)) (snd x)]
                       ++ map (fun pr => RpcSettled (rpc_params serviceId (fst pr)) (snd pr)) l)
            = - Z.of_nat (S (length l))).
    rewrite in_flight_app, IH. unfold in_flight. simpl fold_left.
    unfold in_flight_step. lia. }
  rewrite H1, H2, length_combine. lia.
Qed.

(** When every group settles before the next one starts, the requests in
    flight at any instant belong to one group. *)
Lemma groups_bound_in_flight (serviceId : Z) (b : nat)
    (groups : list (list Item.t * list (Response Z))) :
  Forall (fun g => (1 <= length (fst g) <= b)%nat
                   /\ length (snd g) = length (fst g)) groups ->
  forall p q, flat_map (group_trace serviceId) groups = p ++ q ->
              in_flight p <= Z.of_nat b.
Proof.
  induction 1 as [| [g rs] groups [Hg Hrs] _ IH]; intros p q Hpq; simpl in *.
  - symmetry in Hpq. apply app_eq_nil in Hpq. destruct Hpq; subst.
    unfold in_flight; simpl; lia.
  - symmetry in Hpq. apply app_eq_app in Hpq.
    destruct Hpq as [l [[Hp Hq] | [Hp Hq]]].
    + subst p. rewrite in_flight_app, group_trace_settles_all by assumption.
      simpl. eapply IH. eassumption.
    + pose proof (in_flight_le_sent p) as Hle.
      pose proof (group_trace_count serviceId g rs) as Hc.
      rewrite Hp, filter_app, length_app in Hc. lia.
Qed.

Lemma trace_of_groups (serviceId : Z)
    (groups : list (list Item.t * list (Response Z))) :
  Forall (fun g => length (snd g) = length (fst g)) groups ->
  sent_requests (flat_map (group_trace serviceId) groups)
  = map (rpc_params serviceId) (concat (map fst groups))
  /\ settled_requests (flat_map (group_trace serviceId) groups)
     = combine (map (rpc_params serviceId) (concat (map fst groups)))
               (concat (map snd groups)).
Proof.
  induction 1 as [| [g rs] groups Hg _ [IH1 IH2]]; simpl in *; [auto |].
  rewrite sent_requests_app, settled_requests_app, IH1, IH2.
  rewrite group_trace_sent, group_trace_settled, map_app.
  split; [reflexivity |].
  rewrite combine_app_same; [reflexivity |]. now rewrite length_map.
Qed.

Lemma peak_from_bound (b : Z) (tr : list Effect) :
  forall n pre, n = in_flight pre ->
    (forall p q, pre ++ tr = p ++ q -> in_flight p <= b) ->
    peak_from n tr <= b.
Proof.
  induction tr as [| e tr IH]; intros n pre Hn Hall; simpl.
  - subst n. apply (Hall pre []). reflexivity.
  - apply Z.max_lub.
    + subst n. apply (Hall pre (e :: tr)). reflexivity.
    + apply (IH _ (pre ++ [e])).
      * subst n. rewrite in_flight_app. unfold in_flight at 3. simpl.
        destruct e; unfold in_flight_step; lia.
      * intros p q H. apply (Hall p q). rewrite <- H, <- app_assoc. reflexivity.
Qed.

(** C10. [processBatch] returns for every batchSize of at least 1, as soon
    as the loop test may be evaluated once more than there are items; with
    batchSize 0 and at least one item the index stays at 0, no upsert ever
    leaves and the call never returns. *)
Theorem processBatch_termination
    (env : Env) (serviceId : Z) (items : list Item.t) (w : World) :
  (forall b fuel, 1 <= b -> (length items < fuel)%nat ->
     exists results w',
       processBatch env fuel serviceId items b w = (Return (serviceId, results), w'))
  /\ (items <> [] ->
      forall fuel, processBatch env fuel serviceId items 0 w = (Diverge, w)).
Proof.
  split.
  - intros b fuel Hb Hfuel.
    destruct (@processBatch_loop_spec env serviceId items b Hb fuel 0%nat [] w)
      as (groups & w' & E & _); [lia |].
    unfold processBatch, bind. simpl Z.of_nat in E. rewrite E.
    eexists _, _. reflexivity.
  - intros Hne fuel. unfold processBatch, bind.
    assert (H : forall results,
               processBatch_loop env fuel serviceId items 0 0 results w = (Diverge, w)).
    { induction fuel as [| fuel IH]; intros results;
        cbn [processBatch_loop]; [reflexivity |].
      change (0 + 0) with 0.
      destruct (0 <? Z.of_nat (length items)) eqn:Hlt.
      - rewrite (slice_empty items). unfold bind. simpl. apply IH.
      - apply Z.ltb_ge in Hlt. destruct items; [congruence | simpl in Hlt; lia]. }
    now rewrite H.
Qed.

Lemma processBatch_termination_witness :
  (exists results w',
     processBatch quiet_env 3 7 (numbered_items 2) 1 empty_world
     = (Return (7, results), w'))
  /\ processBatch quiet_env 5 7 (numbered_items 2) 0 empty_world
     = (Diverge, empty_world).
Proof.
  destruct (processBatch_termination
              quiet_env 7 (numbered_items 2) empty_world) as [H1 H2].
  split.
  - apply H1; simpl; lia.
  - apply H2. discriminate.
Defined.

(** C3. For a batchSize of at least 1, [processBatch] returns one outcome
    per item, in the order of the items: a request leaves for every item
    whatever happens to the others, the k-th outcome is the answer to the
    k-th item's request, it is an error exactly when the datastore rejects
    that request, and every item whose upsert was not rejected has its row
    in the table at the end. *)
Theorem processBatch_collects_every_outcome
    (env : Env) (serviceId : Z) (items : list Item.t) (b : Z) (fuel : nat)
    (w : World) :
  1 <= b -> (length items < fuel)%nat ->
  exists results w' tr,
    processBatch env fuel serviceId items b w = (Return (serviceId, results), w')
    /\ length results = length items
    /\ trace w' = trace w ++ tr
    /\ sent_requests tr = map (rpc_params serviceId) items
    /\ settled_requests tr = combine (map (rpc_params serviceId) items) results
    /\ forall k item, nth_error items k = Some item ->
         exists r, nth_error results k = Some r
                   /\ error r = db_fault env (db_requests w + k)%nat
                   /\ (error r = None ->
                       has_row serviceId (Item.guid item) (service_events w') = true).
Proof.
  intros Hb Hfuel.
  destruct (@processBatch_loop_spec env serviceId items b Hb fuel 0%nat [] w)
    as (groups & w' & E & C & F & _ & T & _ & N & _); [lia |].
  simpl in E, C, N.
  assert (F' : Forall (fun g : list Item.t * list (Response Z) =>
                         length (snd g) = length (fst g)) groups).
  { eapply Forall_impl; [| exact F]. intros g [_ H]; exact H. }
  destruct (trace_of_groups serviceId F') as [S1 S2]. rewrite C in S1, S2.
  exists (concat (map snd groups)), w', (flat_map (group_trace serviceId) groups).
  unfold processBatch, bind. rewrite E. unfold ret.
  repeat split; auto.
  rewrite <- C. clear - F'.
  induction F' as [| g groups Hg _ IH]; simpl; [reflexivity |].
  rewrite !length_app. congruence.
Qed.

Lemma processBatch_collects_every_outcome_witness :
  exists results w' tr,
    processBatch quiet_env 4 7 (numbered_items 3) 2 empty_world
    = (Return (7, results), w')
    /\ length results = 3%nat
    /\ trace w' = trace empty_world ++ tr
    /\ sent_requests tr = map (rpc_params 7) (numbered_items 3)
    /\ settled_requests tr = combine (map (rpc_params 7) (numbered_items 3)) results
    /\ forall k item, nth_error (numbered_items 3) k = Some item ->
         exists r, nth_error results k = Some r
                   /\ error r = db_fault quiet_env (db_requests empty_world + k)%nat
                   /\ (error r = None ->
                       has_row 7 (Item.guid item) (service_events w') = true).
Proof.
  apply (@processBatch_collects_every_outcome
           quiet_env 7 (numbered_items 3) 2 4%nat empty_world).
  - lia.
  - simpl. lia.
Defined.

(** C8. For a batchSize of at least 1, [processBatch] cuts the items into
    consecutive groups, in order, each of batchSize items but the last,
    which may be shorter; the requests of a group leave only after every
    request of the group before has settled, so at no instant of the trace
    are more than batchSize upserts in flight. *)
Theorem processBatch_bounds_in_flight
    (env : Env) (serviceId : Z) (items : list Item.t) (b : Z) (fuel : nat)
    (w : World) :
  1 <= b -> (length items < fuel)%nat ->
  exists groups results w',
    processBatch env fuel serviceId items b w = (Return (serviceId, results), w')
    /\ concat (map fst groups) = items
    /\ Forall (fun g => (1 <= length (fst g) <= Z.to_nat b)%nat) groups
    /\ full_but_last (Z.to_nat b) (map fst groups)
    /\ trace w' = trace w ++ flat_map (group_trace serviceId) groups
    /\ (forall p q, flat_map (group_trace serviceId) groups = p ++ q ->
                    in_flight p <= b)
    /\ peak_in_flight (flat_map (group_trace serviceId) groups) <= b.
Proof.
  intros Hb Hfuel.
  destruct (@processBatch_loop_spec env serviceId items b Hb fuel 0%nat [] w)
    as (groups & w' & E & C & F & S & T & _); [lia |].
  simpl in E, C.
  exists groups, (concat (map snd groups)), w'.
  unfold processBatch, bind. rewrite E. unfold ret.
  assert (B : forall p q, flat_map (group_trace serviceId) groups = p ++ q ->
                          in_flight p <= b).
  { intros p q H.
    pose proof (groups_bound_in_flight serviceId F p q H). lia. }
  repeat split; auto.
  - eapply Forall_impl; [| exact F]. intros g [H _]; exact H.
  - unfold peak_in_flight. apply (@peak_from_bound b _ 0 []); [reflexivity |].
    exact B.
Qed.

Lemma processBatch_bounds_in_flight_witness :
  exists groups results w',
    processBatch quiet_env 26 7 (numbered_items 25) 10 empty_world
    = (Return (7, results), w')
    /\ concat (map fst groups) = numbered_items 25
    /\ Forall (fun g => (1 <= length (fst g) <= Z.to_nat 10)%nat) groups
    /\ full_but_last (Z.to_nat 10) (map fst groups)
    /\ trace w' = trace empty_world ++ flat_map (group_trace 7) groups
    /\ (forall p q, flat_map (group_trace 7) groups = p ++ q -> in_flight p <= 10)
    /\ peak_in_flight (flat_map (group_trace 7) groups) <= 10.
Proof.
  apply (@processBatch_bounds_in_flight
           quiet_env 7 (numbered_items 25) 10 26%nat empty_world).
  - lia.
  - vm_compute. lia.
Defined.

(** With batchSize 10 and 25 items the groups hold 10, 10 and 5 items and
    the peak is exactly 10. *)
Example processBatch_25_items_peak :
  let w' := snd (processBatch quiet_env 26 7 (numbered_items 25) 10 empty_world) in
  peak_in_flight (trace w') = 10
  /\ length (sent_requests (trace w')) = 25%nat
  /\ length (service_events w') = 25%nat.
Proof. vm_compute. repeat split. Qed.

(** ** Upserting the same item again *)

Lemma find_none_filter (A : Type) (f : A -> bool) (l : list A) :
  find f l = None -> filter f l = [].
Proof.
  induction l as [| x l IH]; simpl; auto.
  destruct (f x); [discriminate | auto].
Qed.

Lemma find_some_filter (A : Type) (f : A -> bool) (l : list A) (x : A) :
  find f l = Some x -> filter f l <> [].
Proof.
  induction l as [| y l IH]; simpl; [discriminate |].
  destruct (f y); [discriminate | auto].
Qed.

Lemma same_key_refresh (s : Z) (g : string) (p : RpcParams) (e : Event) :
  same_key s g (refresh p e) = same_key s g e.
Proof. reflexivity. Qed.

(** On the rows of its natural key an upsert refreshes what is there, or
    inserts one row when nothing is; the rows of other keys stay. *)
Lemma upsert_on_key (p : RpcParams) (tbl : list Event) (next : Z) :
  let key := same_key (p_service_id p) (p_guid p) in
  let tbl' := fst (fst (upsert_service_event p tbl next)) in
  filter key tbl'
  = match filter key tbl with
    | [] => [fresh next p]
    | rows => map (refresh p) rows
    end
  /\ filter (fun e => negb (key e)) tbl' = filter (fun e => negb (key e)) tbl.
Proof.
  cbv zeta. unfold upsert_service_event.
  destruct (find _ tbl) eqn:F; simpl.
  - apply find_some_filter in F.
    assert (H : forall l,
      filter (same_key (p_service_id p) (p_guid p))
        (map (fun r => if same_key (p_service_id p) (p_guid p) r
                       then refresh p r else r) l)
      = map (refresh p) (filter (same_key (p_service_id p) (p_guid p)) l)
      /\ filter (fun e => negb (same_key (p_service_id p) (p_guid p) e))
           (map (fun r => if same_key (p_service_id p) (p_guid p) r
                          then refresh p r else r) l)
         = filter (fun e => negb (same_key (p_service_id p) (p_guid p) e)) l).
    { induction l as [| x l [IH1 IH2]]; simpl; [auto |].
      destruct (same_key (p_service_id p) (p_guid p) x) eqn:K; simpl.
      - rewrite same_key_refresh, K. simpl. rewrite IH1, IH2. auto.
      - rewrite K. simpl. rewrite IH1, IH2. auto. }
    destruct (H tbl) as [H1 H2]. rewrite H1, H2.
    destruct (filter _ tbl); [congruence | auto].
  - rewrite (find_none_filter _ _ F), !filter_app, (find_none_filter _ _ F).
    simpl. unfold fresh at 1 3. unfold same_key at 1 3. simpl.
    rewrite Z.eqb_refl, String.eqb_refl. simpl. now rewrite app_nil_r.
Qed.

Lemma upsert_returns_id (p : RpcParams) (tbl : list Event) (next : Z) (row : Event) :
  filter (same_key (p_service_id p) (p_guid p))
         (fst (fst (upsert_service_event p tbl next))) = [row] ->
  snd (upsert_service_event p tbl next) = id row.
Proof.
  pose proof (upsert_on_key p tbl next) as [H _]. cbv zeta in H.
  rewrite H. clear H. unfold upsert_service_event.
  destruct (find _ tbl) eqn:F; simpl.
  - destruct (filter _ tbl) as [| x rows] eqn:Fl; simpl.
    + apply find_some_filter in F. congruence.
    + intros Hrow. inversion Hrow; subst. simpl.
      clear - F Fl. revert F Fl.
      induction tbl as [| y tbl IH]; simpl; [discriminate |].
      destruct (same_key _ _ y); intros; [congruence | auto].
  - rewrite (find_none_filter _ _ F). intros Hrow. now inversion Hrow.
Qed.

Section UpsertFacts.

Variable env : Env.

(** A batch of one item: one request leaves and settles. *)
Lemma processBatch_single (serviceId : Z) (item : Item.t) (b : Z) (fuel : nat)
    (w : World) :
  1 <= b -> (1 < fuel)%nat ->
  processBatch env fuel serviceId [item] b w
  = match rpc_settle env (rpc_params serviceId item)
            (set_trace (trace w ++ [RpcSent (rpc_params serviceId item)]) w) with
    | (Return r, w') => (Return (serviceId, [r]), w')
    | (_, w') => (Diverge, w')
    end.
Proof.
  intros Hb Hfuel. destruct fuel as [| [| fuel]]; try lia.
  unfold processBatch. unfold bind at 1. cbn [processBatch_loop].
  change (Z.of_nat (length [item])) with 1.
  change (0 <? 1) with true. cbv iota.
  assert (Hs : slice [item] 0 (0 + b) = [item]).
  { change 0 with (Z.of_nat 0). rewrite slice_group by (simpl; lia).
    simpl. destruct (Z.to_nat b) eqn:E; [lia |].
    simpl. now rewrite firstn_nil. }
  assert (Hlt : (0 + b <? 1) = false) by (apply Z.ltb_ge; lia).
  rewrite Hs, Hlt. cbv zeta.
  unfold bind at 1. unfold Promise_all_rpc. unfold bind at 1.
  rewrite for_each_rpc_send. cbn [map for_each]. unfold bind at 1.
  destruct (rpc_settle_spec env (rpc_params serviceId item)
              (set_trace (trace w ++ [RpcSent (rpc_params serviceId item)]) w))
    as (r & w' & E & _).
  rewrite E. reflexivity.
Qed.

Lemma rpc_settle_accepted (p : RpcParams) (w : World) :
  db_fault env (db_requests w) = None ->
  exists w',
    rpc_settle env p w
    = (Return (ok (snd (upsert_service_event p (service_events w) (next_id w)))), w')
    /\ service_events w'
       = fst (fst (upsert_service_event p (service_events w) (next_id w)))
    /\ db_requests w' = S (db_requests w).
Proof.
  intros F. unfold rpc_settle, bind, db_tick. simpl. rewrite F. simpl.
  destruct (upsert_service_event p (service_events w) (next_id w))
    as [[tbl next] rowId].
  eexists. unfold log, ret, set_trace, set_events. simpl.
  split; [reflexivity |]. auto.
Qed.

End UpsertFacts.

(** C5. Upserting for one service an item and then an item of the same
    guid, both upserts accepted, in a table that holds at most one row for
    that natural key: the table ends with exactly one row for the key, it
    carries the title, description and publish date of the second item, its
    identifier and its structured fields are those of the row that was
    there (empty structured fields when the first upsert inserted it), both
    calls return that identifier, and the rows of every other key are as
    before. *)
Theorem upsert_same_guid_twice_keeps_one_row
    (env : Env) (serviceId : Z) (item1 item2 : Item.t) (b : Z) (fuel : nat)
    (w : World) :
  let key := same_key serviceId (Item.guid item1) in
  1 <= b -> (1 < fuel)%nat ->
  Item.guid item2 = Item.guid item1 ->
  (length (filter key (service_events w)) <= 1)%nat ->
  db_fault env (db_requests w) = None ->
  db_fault env (S (db_requests w)) = None ->
  exists w1 w2 row1 row2,
    processBatch env fuel serviceId [item1] b w
    = (Return (serviceId, [ok (id row2)]), w1)
    /\ processBatch env fuel serviceId [item2] b w1
       = (Return (serviceId, [ok (id row2)]), w2)
    /\ filter key (service_events w1) = [row1]
    /\ filter key (service_events w2) = [row2]
    /\ title row2 = Item.title item2
    /\ description row2 = Item.content item2
    /\ pub_date row2 = Item.isoDate item2
    /\ id row2 = id row1
    /\ structured row2 = structured row1
    /\ (forall row0, filter key (service_events w) = [row0] ->
          id row1 = id row0 /\ structured row1 = structured row0)
    /\ (filter key (service_events w) = [] ->
          structured row1 = (None, None, None, None))
    /\ filter (fun e => negb (key e)) (service_events w2)
       = filter (fun e => negb (key e)) (service_events w).
Proof.
  intros key Hb Hfuel Hguid Huniq F1 F2.
  set (p1 := rpc_params serviceId item1).
  set (p2 := rpc_params serviceId item2).
  set (w0 := set_trace (trace w ++ [RpcSent p1]) w).
  destruct (@rpc_settle_accepted env p1 w0 F1) as (w1 & E1 & T1 & D1).
  set (w1' := set_trace (trace w1 ++ [RpcSent p2]) w1).
  assert (F2' : db_fault env (db_requests w1') = None)
    by (unfold w1'; simpl; rewrite D1; exact F2).
  destruct (@rpc_settle_accepted env p2 w1' F2') as (w2 & E2 & T2 & D2).
  pose proof (upsert_on_key p1 (service_events w0) (next_id w0)) as [K1 O1].
  pose proof (upsert_on_key p2 (service_events w1') (next_id w1')) as [K2 O2].
  pose proof (@upsert_returns_id p1 (service_events w0) (next_id w0)) as I1.
  pose proof (@upsert_returns_id p2 (service_events w1') (next_id w1')) as I2.
  cbv zeta in K1, O1, K2, O2.
  rewrite <- T1 in K1, O1, I1. rewrite <- T2 in K2, O2, I2.
  change (p_service_id p1) with serviceId in *.
  change (p_service_id p2) with serviceId in *.
  change (p_guid p1) with (Item.guid item1) in *.
  change (p_guid p2) with (Item.guid item2) in *.
  rewrite Hguid in K2, O2, I2.
  change (service_events w0) with (service_events w) in *.
  change (service_events w1') with (service_events w1) in *.
  fold key in K1, O1, K2, O2, I1, I2.
  assert (R1 : exists row1, filter key (service_events w1) = [row1]
             /\ (forall row0, filter key (service_events w) = [row0] ->
                   id row1 = id row0 /\ structured row1 = structured row0)
             /\ (filter key (service_events w) = [] ->
                   structured row1 = (None, None, None, None))).
  { destruct (filter key (service_events w)) as [| row0 [| ? ?]] eqn:Fl;
      simpl in Huniq; try lia.
    - exists (fresh (next_id w0) p1). repeat split; auto; discriminate.
    - exists (refresh p1 row0). split; [exact K1 |].
      split; [| discriminate].
      intros r Hr. inversion Hr; subst. auto. }
  destruct R1 as (row1 & Hrow1 & Hold & Hnew).
  rewrite Hrow1 in K2. simpl in K2.
  exists w1, w2, row1, (refresh p2 row1).
  specialize (I1 row1 Hrow1). specialize (I2 _ K2).
  rewrite I1 in E1. rewrite I2 in E2.
  rewrite !processBatch_single by assumption.
  fold p1 p2 w0. rewrite E1. fold w1'. rewrite E2.
  split; [reflexivity |]. split; [reflexivity |].
  split; [exact Hrow1 |]. split; [exact K2 |].
  repeat (split; [reflexivity |]).
  split; [exact Hold |]. split; [exact Hnew |].
  rewrite O2, O1. reflexivity.
Qed.

Lemma upsert_same_guid_twice_keeps_one_row_witness :
  exists w1 w2 row1 row2,
    processBatch quiet_env 2 7 [item_g1] 10 empty_world
    = (Return (7, [ok (id row2)]), w1)
    /\ processBatch quiet_env 2 7
         [Item.mk "g1" "Incident resolved" "<p>done</p>" "2024-07-19T17:57:00Z"] 10 w1
       = (Return (7, [ok (id row2)]), w2)
    /\ filter (same_key 7 "g1") (service_events w1) = [row1]
    /\ filter (same_key 7 "g1") (service_events w2) = [row2]
    /\ title row2 = "Incident resolved"
    /\ description row2 = "<p>done</p>"
    /\ pub_date row2 = "2024-07-19T17:57:00Z"
    /\ id row2 = id row1
    /\ structured row2 = structured row1
    /\ (forall row0, filter (same_key 7 "g1") (service_events empty_world) = [row0] ->
          id row1 = id row0 /\ structured row1 = structured row0)
    /\ (filter (same_key 7 "g1") (service_events empty_world) = [] ->
          structured row1 = (None, None, None, None))
    /\ filter (fun e => negb (same_key 7 "g1" e)) (service_events w2)
       = filter (fun e => negb (same_key 7 "g1" e)) (service_events empty_world).
Proof.
  apply (@upsert_same_guid_twice_keeps_one_row quiet_env 7 item_g1
           (Item.mk "g1" "Incident resolved" "<p>done</p>" "2024-07-19T17:57:00Z")
           10 2%nat empty_world).
  - lia.
  - lia.
  - reflexivity.
  - simpl. lia.
  - reflexivity.
  - reflexivity.
Defined.

(** ** processEvent *)



Section EventFacts.

Variable env : Env.

(** Every path through [processEvent]. *)
Lemma processEvent_spec (e : Event) (w : World) :
  exists r w' tr,
    processEvent env e w = (r, w')
    /\ trace w' = trace w ++ tr
    /\ llm_inputs tr = [description e]
    /\ summaries tr = [(id e, is_return r)]
    /\ (r = Return tt \/ r = Throw "Error processing event")
    /\ (updates tr = []
        \/ exists v, llm env (llm_calls w) (description e) = LlmText (Some v)
                     /\ truthy v = true
                     /\ updates tr = [(id e, spread v)])
    /\ (service_events w' = service_events w
        \/ exists v, llm env (llm_calls w) (description e) = LlmText (Some v)
                     /\ r = Return tt
                     /\ update_rows (spread v) (id e) (service_events w)
                        = Some (service_events w'))
    /\ sent_requests tr = [] /\ feeds_fetched tr = []
    /\ llm_calls w' = S (llm_calls w)
    /\ db_requests w' = (db_requests w + length (updates tr))%nat
    /\ res w' = res w /\ services w' = services w /\ next_id w' = next_id w.
Proof.
  unfold processEvent, try_catch, bind, anthropic_messages_create, log,
    llm_tick, bind. simpl.
  destruct (llm env (llm_calls w) (description e)) as [m | [v |]] eqn:L;
    unfold throw, JSON_parse, ret; simpl.
  - eexists _, _, [_; _]. split; [reflexivity |]. simpl.
    rewrite <- app_assoc. simpl. repeat split; auto.
  - destruct (truthy v) eqn:T; simpl.
    + unfold supabase_update, bind, log, db_tick. simpl.
      destruct (db_fault env (db_requests w)) as [m |] eqn:F; simpl.
      * eexists _, _, [_; _; _]. split; [reflexivity |]. simpl.
        rewrite <- !app_assoc. simpl.
        repeat split; eauto; simpl; lia.
      * destruct (update_rows (spread v) (id e) (service_events w)) as [tbl |] eqn:U;
          simpl.
        -- eexists _, _, [_; _; _]. split; [reflexivity |]. simpl.
           rewrite <- !app_assoc. simpl.
           repeat split; eauto 6; simpl; lia.
        -- eexists _, _, [_; _; _]. split; [reflexivity |]. simpl.
           rewrite <- !app_assoc. simpl.
           repeat split; eauto; simpl; lia.
    + eexists _, _, [_; _]. split; [reflexivity |]. simpl.
      rewrite <- app_assoc. simpl. repeat split; auto.
  - eexists _, _, [_; _]. split; [reflexivity |]. simpl.
    rewrite <- app_assoc. simpl. repeat split; auto.
Qed.

(** The same paths, told by what the collaborators answer. *)
Lemma processEvent_cases (e : Event) (w : World) :
  exists r w' tr,
    processEvent env e w = (r, w')
    /\ trace w' = trace w ++ tr
    /\ match llm env (llm_calls w) (description e) with
       | LlmText (Some v) =>
           if truthy v then
             updates tr = [(id e, spread v)]
             /\ match db_fault env (db_requests w),
                      update_rows (spread v) (id e) (service_events w) with
                | None, Some tbl => r = Return tt /\ service_events w' = tbl
                | _, _ => r = Throw "Error processing event"
                          /\ service_events w' = service_events w
                end
           else r = Throw "Error processing event" /\ updates tr = []
                /\ service_events w' = service_events w
       | _ => r = Throw "Error processing event" /\ updates tr = []
              /\ service_events w' = service_events w
       end.
Proof.
  unfold processEvent, try_catch, bind, anthropic_messages_create, log,
    llm_tick, bind. simpl.
  destruct (llm env (llm_calls w) (description e)) as [m | [v |]] eqn:L;
    unfold throw, JSON_parse, ret; simpl.
  - eexists _, _, [_; _]. split; [reflexivity |]. simpl.
    rewrite <- app_assoc. simpl. auto.
  - destruct (truthy v) eqn:T; simpl.
    + unfold supabase_update, bind, log, db_tick. simpl.
      destruct (db_fault env (db_requests w)) as [m |] eqn:F; simpl.
      * eexists _, _, [_; _; _]. split; [reflexivity |]. simpl.
        rewrite <- !app_assoc. simpl. auto.
      * destruct (update_rows (spread v) (id e) (service_events w)) as [tbl |] eqn:U;
          simpl.
        -- eexists _, _, [_; _; _]. split; [reflexivity |]. simpl.
           rewrite <- !app_assoc. simpl. auto.
        -- eexists _, _, [_; _; _]. split; [reflexivity |]. simpl.
           rewrite <- !app_assoc. simpl. auto.
    + eexists _, _, [_; _]. split; [reflexivity |]. simpl.
      rewrite <- app_assoc. simpl. auto.
  - eexists _, _, [_; _]. split; [reflexivity |]. simpl.
    rewrite <- app_assoc. simpl. auto.
Qed.

(** Every path through the handler of [/summarize-event]. *)
Lemma summarize_event_cases (eventId : Z) (w : World) :
  exists w' tr,
    summarize_event env eventId w = (Return tt, w')
    /\ trace w' = trace w ++ tr
    /\ sent_requests tr = []
    /\ next_id w' = next_id w
    /\ match db_fault env (db_requests w),
             filter (fun e => id e =? eventId) (service_events w) with
       | None, e :: _ =>
           llm_inputs tr = [description e]
           /\ llm_calls w' = S (llm_calls w)
           /\ match llm env (llm_calls w) (description e) with
              | LlmText (Some v) =>
                  if truthy v then
                    updates tr = [(eventId, spread v)]
                    /\ match db_fault env (S (db_requests w)),
                             update_rows (spread v) eventId (service_events w) with
                       | None, Some tbl =>
                           service_events w' = tbl
                           /\ res w' = Some (200, "Successfully summarized event "
                                                  ++ Z_to_string eventId)%string
                       | _, _ =>
                           service_events w' = service_events w
                           /\ res w' = Some (500, "Error: Unable to summarize "
                                                  ++ Z_to_string eventId)%string
                       end
                  else updates tr = [] /\ service_events w' = service_events w
                       /\ res w' = Some (500, "Error: Unable to summarize "
                                              ++ Z_to_string eventId)%string
              | _ => updates tr = [] /\ service_events w' = service_events w
                     /\ res w' = Some (500, "Error: Unable to summarize "
                                            ++ Z_to_string eventId)%string
              end
       | _, _ =>
           res w' = Some (500, "Error: Unable to summarize "
                               ++ Z_to_string eventId)%string
           /\ llm_inputs tr = [] /\ updates tr = []
           /\ service_events w' = service_events w
           /\ llm_calls w' = llm_calls w
           /\ db_requests w' = S (db_requests w)
       end.
Proof.
  unfold summarize_event, try_catch, bind, supabase_select_event, log, db_tick,
    bind. simpl.
  destruct (db_fault env (db_requests w)) as [m |] eqn:F; simpl.
  - unfold throw, res_status_send. simpl.
    eexists _, [_; _; _]. split; [reflexivity |]. simpl.
    rewrite <- !app_assoc. simpl. repeat split; auto.
  - destruct (filter (fun e => id e =? eventId) (service_events w)) as [| e rest] eqn:Fl;
      simpl.
    + unfold throw, res_status_send. simpl.
      eexists _, [_; _; _]. split; [reflexivity |]. simpl.
      rewrite <- !app_assoc. simpl. repeat split; auto.
    + unfold ret, anthropic_messages_create, bind, log, llm_tick. simpl.
      destruct (llm env (llm_calls w) (description e)) as [m | [v |]] eqn:L;
        unfold throw, JSON_parse, ret, res_status_send; simpl.
      * eexists _, [_; _; _; _]. split; [reflexivity |]. simpl.
        rewrite <- !app_assoc. simpl. repeat split; auto.
      * destruct (truthy v) eqn:T; simpl.
        -- unfold supabase_update, bind, log, db_tick. simpl.
           destruct (db_fault env (S (db_requests w))) as [m |] eqn:F2; simpl.
           ++ eexists _, [_; _; _; _; _]. split; [reflexivity |]. simpl.
              rewrite <- !app_assoc. simpl. repeat split; auto.
           ++ destruct (update_rows (spread v) eventId (service_events w))
                as [tbl |] eqn:U; simpl.
              ** eexists _, [_; _; _; _; _]. split; [reflexivity |]. simpl.
                 rewrite <- !app_assoc. simpl. repeat split; auto.
              ** eexists _, [_; _; _; _; _]. split; [reflexivity |]. simpl.
                 rewrite <- !app_assoc. simpl. repeat split; auto.
        -- eexists _, [_; _; _; _]. split; [reflexivity |]. simpl.
           rewrite <- !app_assoc. simpl. repeat split; auto.
      * eexists _, [_; _; _; _]. split; [reflexivity |]. simpl.
        rewrite <- !app_assoc. simpl. repeat split; auto.
Qed.

End EventFacts.

(** ** The Event Summarizer *)





(** C7, against the code.  The event exists and its description is empty:
    the handler calls the completion with the empty text and goes on to
    answer 200; [processEvent] calls it as well. *)
Lemma empty_description_reaches_the_llm :
  description event_blank = ""
  /\ llm_inputs (trace (snd (summarize_event quiet_env 1 world_blank))) = [""]
  /\ res (snd (summarize_event quiet_env 1 world_blank))
     = Some (200, "Successfully summarized event 1")
  /\ llm_inputs (trace (snd (processEvent quiet_env event_blank world_blank))) = [""].
Proof. vm_compute. repeat split. Qed.

(** C7, as the code has it.  The handler of [/summarize-event] looks the
    event up once.  When the lookup fails or finds no row it answers 500
    without calling the completion and without writing; when the lookup
    finds the event the completion is called once with the event's
    description, whatever it is. *)
Theorem summarize_event_checks_existence_only
    (env : Env) (eventId : Z) (w : World) :
  exists w' tr,
    summarize_event env eventId w = (Return tt, w')
    /\ trace w' = trace w ++ tr
    /\ match db_fault env (db_requests w),
             filter (fun e => id e =? eventId) (service_events w) with
       | None, e :: _ => llm_inputs tr = [description e]
       | _, _ =>
           res w' = Some (500, "Error: Unable to summarize "
                               ++ Z_to_string eventId)%string
           /\ llm_inputs tr = [] /\ updates tr = []
           /\ service_events w' = service_events w
           /\ db_requests w' = S (db_requests w)
       end.
Proof.
  destruct (summarize_event_cases env eventId w) as (w' & tr & E & T & _ & _ & C).
  exists w', tr. repeat split; auto.
  destruct (db_fault env (db_requests w)); [tauto |].
  destruct (filter _ (service_events w)); tauto.
Qed.

(** ** Bulk summarization *)

Lemma llm_inputs_app (p q : list Effect) :
  llm_inputs (p ++ q) = llm_inputs p ++ llm_inputs q.
Proof.
  induction p as [| e p IH]; simpl; auto. destruct e; simpl; now rewrite ?IH.
Qed.

Lemma summaries_app (p q : list Effect) :
  summaries (p ++ q) = summaries p ++ summaries q.
Proof.
  induction p as [| e p IH]; simpl; auto. destruct e; simpl; now rewrite ?IH.
Qed.

Lemma feeds_fetched_app (p q : list Effect) :
  feeds_fetched (p ++ q) = feeds_fetched p ++ feeds_fetched q.
Proof.
  induction p as [| e p IH]; simpl; auto. destruct e; simpl; now rewrite ?IH.
Qed.

Lemma all_true_nth (outs : list bool) (j : nat) :
  forallb (fun x => x) outs = true -> nth_error outs j <> Some false.
Proof.
  revert j. induction outs as [| o outs IH]; intros [| j] H; simpl in *;
    try discriminate.
  - apply andb_prop in H. destruct H as [-> _]. discriminate.
  - apply andb_prop in H. destruct H as [_ H]. auto.
Qed.

Lemma combine_short (A B : Type) (a a' : list A) (c : list B) :
  length a = length c -> combine (a ++ a') c = combine a c.
Proof.
  intros H. rewrite <- (app_nil_r c) at 1.
  rewrite combine_app_same by assumption.
  rewrite combine_nil. apply app_nil_r.
Qed.

Section BulkFacts.

Variable env : Env.

(** One group of summarizations: every member runs, whatever the others
    do, and the group fails when one of them fails. *)
Lemma Promise_all_processEvent (batch : list Event) (w : World) :
  exists r w' tr outs,
    Promise_all (map (processEvent env) batch) w = (r, w')
    /\ trace w' = trace w ++ tr
    /\ length outs = length batch
    /\ summaries tr = combine (map id batch) outs
    /\ llm_inputs tr = map description batch
    /\ sent_requests tr = []
    /\ r = (if forallb (fun x => x) outs
            then Return (map (fun _ => tt) batch)
            else Throw "Error processing event")
    /\ res w' = res w.
Proof.
  revert w. induction batch as [| e batch IH]; intros w.
  - exists (Return []), w, [], []. simpl. unfold ret. rewrite app_nil_r.
    repeat split; auto.
  - destruct (processEvent_spec env e w)
      as (r1 & w1 & tr1 & E1 & T1 & L1 & S1 & R1 & _ & _ & Q1 & _ & _ & _ & P1 & _).
    destruct (IH w1) as (r2 & w2 & tr2 & outs & E2 & T2 & N2 & S2 & L2 & Q2 & R2 & P2).
    exists (match r1 with
            | Return a => match r2 with Return l => Return (a :: l) | _ => r2 end
            | _ => Throw "Error processing event"
            end), w2, (tr1 ++ tr2), (is_return r1 :: outs).
    split.
    { simpl. rewrite E1, E2.
      destruct R1 as [-> | ->]; destruct (forallb (fun x => x) outs); subst r2;
        reflexivity. }
    split; [rewrite T2, T1, app_assoc; reflexivity |].
    split; [simpl; congruence |].
    split; [rewrite summaries_app, S1, S2; reflexivity |].
    split; [rewrite llm_inputs_app, L1, L2; reflexivity |].
    split; [rewrite sent_requests_app, Q1, Q2; reflexivity |].
    split; [| congruence].
    simpl. destruct R1 as [-> | ->]; simpl;
      destruct (forallb (fun x => x) outs); subst r2; reflexivity.
Qed.

(** The loop of [/process-events]: it runs the groups of ten in order and
    stops behind the first group in which a summarization failed. *)
Lemma process_events_loop_spec (events : list Event) :
  forall (fuel k : nat) (w : World),
    (length events - k < fuel)%nat ->
    exists r w' tr outs,
      process_events_loop env fuel events (Z.of_nat k) w = (r, w')
      /\ trace w' = trace w ++ tr
      /\ res w' = res w
      /\ (length outs <= length (skipn k events))%nat
      /\ summaries tr = combine (map id (skipn k events)) outs
      /\ llm_inputs tr = map description (firstn (length outs) (skipn k events))
      /\ sent_requests tr = []
      /\ (forallb (fun x => x) outs = true ->
          r = Return tt /\ length outs = length (skipn k events))
      /\ (forall j, nth_error outs j = Some false ->
            r = Throw "Error processing event"
            /\ exists q, (10 * q <= j < 10 * (q + 1))%nat
                         /\ length outs
                            = Nat.min (length (skipn k events)) (10 * (q + 1))).
Proof.
  induction fuel as [| fuel IH]; intros k w Hfuel; [lia |].
  simpl. destruct (Z.of_nat k <? Z.of_nat (length events)) eqn:Hlt.
  - apply Z.ltb_lt in Hlt. assert (Hk : (k < length events)%nat) by lia.
    unfold BATCH_SIZE. rewrite slice_group by (assumption || lia).
    change (Z.to_nat 10) with 10%nat.
    set (tail := skipn k events). set (g := firstn 10 tail).
    destruct (Promise_all_processEvent g w)
      as (r1 & w1 & tr1 & outs1 & E1 & T1 & N1 & S1 & L1 & Q1 & R1 & P1).
    assert (Hskip : skipn (k + 10) events = skipn 10 tail)
      by (unfold tail; rewrite skipn_skipn; f_equal; lia).
    assert (Hsplit : tail = g ++ skipn (k + 10) events)
      by (rewrite Hskip; unfold g; now rewrite firstn_skipn).
    assert (Hg : length g = Nat.min 10 (length tail))
      by (unfold g; now rewrite length_firstn).
    assert (Htail : (0 < length tail)%nat)
      by (unfold tail; rewrite length_skipn; lia).
    unfold bind. rewrite E1.
    destruct (forallb (fun x => x) outs1) eqn:A1; subst r1.
    + replace (Z.of_nat k + 10) with (Z.of_nat (k + 10)) by lia.
      destruct (IH (k + 10)%nat w1) as
        (r2 & w2 & tr2 & outs2 & E2 & T2 & P2 & B2 & S2 & L2 & Q2 & A2 & F2); [lia |].
      set (rest := skipn (k + 10) events) in *.
      assert (Hlen : length tail = (length g + length rest)%nat)
        by (rewrite Hsplit at 1; apply length_app).
      exists r2, w2, (tr1 ++ tr2), (outs1 ++ outs2). rewrite E2.
      split; [reflexivity |].
      split; [rewrite T2, T1, app_assoc; reflexivity |].
      split; [congruence |].
      split; [rewrite length_app; lia |].
      split.
      { rewrite summaries_app, S1, S2, Hsplit, map_app.
        rewrite combine_app_same by (rewrite length_map; congruence).
        reflexivity. }
      split.
      { rewrite llm_inputs_app, L1, L2, Hsplit, length_app, firstn_app.
        rewrite (@firstn_all2 _ (length outs1 + length outs2) g) by lia.
        rewrite map_app. do 3 f_equal. lia. }
      split; [rewrite sent_requests_app, Q1, Q2; reflexivity |].
      split.
      { rewrite forallb_app, A1. simpl. intros H.
        destruct (A2 H) as [-> H2]. split; [reflexivity |].
        rewrite length_app. lia. }
      intros j Hj.
      destruct (Nat.lt_ge_cases j (length outs1)) as [Hjl | Hjl].
      { rewrite nth_error_app1 in Hj by assumption.
        now apply all_true_nth in Hj. }
      rewrite nth_error_app2 in Hj by assumption.
      destruct (F2 _ Hj) as (-> & q & Hq & Hout).
      split; [reflexivity |].
      assert (Hne : (0 < length outs2)%nat).
      { destruct outs2; [now rewrite nth_error_nil in Hj | simpl; lia]. }
      exists (S q). rewrite length_app. lia.
    + exists (Throw "Error processing event"), w1, tr1, outs1.
      split; [reflexivity |]. split; [exact T1 |]. split; [exact P1 |].
      split; [lia |].
      split.
      { rewrite S1, Hsplit, map_app.
        rewrite combine_short by (rewrite length_map; congruence).
        reflexivity. }
      split.
      { rewrite L1, N1, Hg. unfold g. now rewrite firstn_min_length. }
      split; [exact Q1 |].
      split; [congruence |].
      intros j Hj. split; [reflexivity |].
      assert (Hjl : (j < length outs1)%nat)
        by (apply nth_error_Some; congruence).
      exists 0%nat. lia.
  - apply Z.ltb_ge in Hlt.
    exists (Return tt), w, [], []. unfold ret. rewrite app_nil_r.
    rewrite skipn_all2 by lia. simpl.
    repeat split; auto;
      match goal with
      | H : nth_error [] _ = _ |- _ => now rewrite nth_error_nil in H
      end.
Qed.

(** Every path through the handler of [/process-events]. *)
Lemma process_events_cases (w : World) :
  exists ret w' tr outs,
    process_events env w = (Return ret, w')
    /\ trace w' = trace w ++ tr
    /\ sent_requests tr = []
    /\ match db_fault env (db_requests w) with
       | Some _ =>
           ret = None
           /\ res w' = Some (500, "Error while processing the events")
           /\ llm_inputs tr = [] /\ summaries tr = []
       | None =>
           let events := filter unsummarized (service_events w) in
           (length outs <= length events)%nat
           /\ summaries tr = combine (map id events) outs
           /\ llm_inputs tr = map description (firstn (length outs) events)
           /\ (forallb (fun x => x) outs = true ->
               length outs = length events
               /\ ret = Some ("Successfully processed "
                              ++ nat_to_string (length events) ++ " events")%string
               /\ res w' = res w)
           /\ (forall j, nth_error outs j = Some false ->
                 ret = None
                 /\ res w' = Some (500, "Error while processing the events")
                 /\ exists q, (10 * q <= j < 10 * (q + 1))%nat
                              /\ length outs
                                 = Nat.min (length events) (10 * (q + 1)))
       end.
Proof.
  unfold process_events, try_catch, supabase_select_unsummarized.
  unfold bind at 1 2 3. unfold log at 1. unfold db_tick at 1.
  cbn [trace services service_events next_id db_requests llm_calls res set_trace].
  destruct (db_fault env (db_requests w)) as [m |] eqn:F.
  - unfold ret at 1. cbn [error data failed]. unfold throw at 1.
    unfold bind, log, res_status_send, ret. simpl.
    eexists _, _, [_; _], []. split; [reflexivity |]. simpl.
    rewrite <- app_assoc. simpl. repeat split; auto.
  - cbn [error data ok]. unfold ret at 1. unfold bind at 1.
    set (events := filter unsummarized (service_events w)).
    set (w1 := mkWorld (services w) (service_events w) (next_id w)
                       (S (db_requests w)) (llm_calls w)
                       (trace w ++ [SelectUnsummarized]) (res w)).
    destruct (@process_events_loop_spec events (S (length events)) 0 w1)
      as (r & w2 & tr & outs & E & T & P & B & Sm & L & Q & A & Fl); [lia |].
    change (Z.of_nat 0) with 0 in E. cbn [skipn] in B, Sm, L, A, Fl.
    change (service_events w1) with (service_events w). fold events.
    unfold bind at 1. rewrite E.
    assert (Hr : r = Return tt \/ r = Throw "Error processing event").
    { destruct (forallb (fun x => x) outs) eqn:All.
      - left. now apply A.
      - right. assert (H : exists j, nth_error outs j = Some false).
        { clear - All. induction outs as [| [|] outs IH]; simpl in All;
            [discriminate | | exists 0%nat; reflexivity].
          destruct (IH All) as [j Hj]. exists (S j). exact Hj. }
        destruct H as [j Hj]. now apply Fl in Hj. }
    destruct Hr as [-> | ->].
    + unfold ret. exists (Some ("Successfully processed "
                               ++ nat_to_string (length events) ++ " events")%string),
        w2, (SelectUnsummarized :: tr), outs.
      split; [reflexivity |].
      split; [rewrite T; unfold w1; simpl; now rewrite <- app_assoc |].
      split; [exact Q |].
      cbv zeta. fold events.
      split; [exact B |]. split; [exact Sm |]. split; [exact L |].
      split.
      * intros H. destruct (A H) as [_ H2]. repeat split; auto.
      * intros j Hj. destruct (Fl j Hj) as [H _]. discriminate.
    + unfold bind, log, res_status_send, ret. simpl.
      eexists None, _, (SelectUnsummarized :: tr ++ [ConsoleError _]), outs.
      split; [reflexivity |]. simpl.
      split; [rewrite T; unfold w1; simpl; now rewrite <- !app_assoc |].
      split; [rewrite sent_requests_app, Q; reflexivity |].
      fold events. rewrite summaries_app, llm_inputs_app. simpl.
      rewrite !app_nil_r.
      split; [exact B |]. split; [exact Sm |]. split; [exact L |].
      split.
      * intros H. destruct (A H) as [H1 _]. discriminate.
      * intros j Hj. destruct (Fl j Hj) as [_ H]. auto.
Qed.

End BulkFacts.






(** The failure half of C4 holds: when the events cannot be loaded the
    handler answers 500 with a text. *)
Lemma process_events_load_failure_answers_500 (env : Env) (w : World) (m : string) :
  db_fault env (db_requests w) = Some m ->
  res (snd (process_events env w)) = Some (500, "Error while processing the events")
  /\ fst (process_events env w) = Return None.
Proof.
  intros F.
  destruct (process_events_cases env w) as (ret & w' & tr & outs & E & T & _ & C).
  rewrite F in C. rewrite E. simpl. destruct C as (-> & R & _). auto.
Qed.

(** ** Feed fan-out *)

Lemma feeds_fetched_groups (serviceId : Z)
    (groups : list (list Item.t * list (Response Z))) :
  feeds_fetched (flat_map (group_trace serviceId) groups) = [].
Proof.
  induction groups as [| [g rs] groups IH]; simpl; [reflexivity |].
  rewrite feeds_fetched_app, IH, app_nil_r. unfold group_trace. simpl.
  rewrite feeds_fetched_app.
  assert (H1 : forall l : list Item.t,
             feeds_fetched (map (fun item => RpcSent (rpc_params serviceId item)) l) = [])
    by (induction l; simpl; auto).
  assert (H2 : forall l : list (Item.t * Response Z),
             feeds_fetched (map (fun pr => RpcSettled (rpc_params serviceId (fst pr)) (snd pr)) l) = [])
    by (induction l; simpl; auto).
  now rewrite H1, H2.
Qed.

Lemma in_combine_nth (A B : Type) (a : list A) (c : list B) (x : A) (y : B) :
  In (x, y) (combine a c) ->
  exists j, nth_error a j = Some x /\ nth_error c j = Some y.
Proof.
  revert c. induction a as [| x' a IH]; intros [| y' c] H; simpl in H;
    try contradiction.
  destruct H as [H | H].
  - inversion H; subst. exists 0%nat. auto.
  - destruct (IH c H) as [j Hj]. exists (S j). exact Hj.
Qed.

Section FanOutFacts.

Variable env : Env.

(** What the fan-out relies on, for one service. *)
Lemma processBatch_spec (serviceId : Z) (its : list Item.t) (b : Z) (fuel : nat)
    (w : World) :
  1 <= b -> (length its < fuel)%nat ->
  exists results w' tr,
    processBatch env fuel serviceId its b w = (Return (serviceId, results), w')
    /\ trace w' = trace w ++ tr
    /\ sent_requests tr = map (rpc_params serviceId) its
    /\ length (settled_requests tr) = length its
    /\ (forall p r, In (p, r) (settled_requests tr) -> error r = None ->
          has_row (p_service_id p) (p_guid p) (service_events w') = true)
    /\ feeds_fetched tr = []
    /\ batch_frame w w'.
Proof.
  intros Hb Hfuel.
  destruct (@processBatch_loop_spec env serviceId its b Hb fuel 0%nat [] w)
    as (groups & w' & E & C & F & _ & T & _ & N & B); [lia |].
  simpl in E, C, N.
  assert (F' : Forall (fun g : list Item.t * list (Response Z) =>
                         length (snd g) = length (fst g)) groups).
  { eapply Forall_impl; [| exact F]. intros g [_ H]; exact H. }
  destruct (trace_of_groups serviceId F') as [S1 S2]. rewrite C in S1, S2.
  assert (L : length (concat (map snd groups)) = length its).
  { rewrite <- C. clear - F'.
    induction F' as [| g groups Hg _ IH]; simpl; [reflexivity |].
    rewrite !length_app. congruence. }
  exists (concat (map snd groups)), w', (flat_map (group_trace serviceId) groups).
  unfold processBatch, bind. rewrite E. unfold ret.
  split; [reflexivity |]. split; [exact T |]. split; [exact S1 |].
  split; [rewrite S2, length_combine, length_map, L; lia |].
  split; [| split; [apply feeds_fetched_groups | exact B]].
  intros p r Hin He. rewrite S2 in Hin.
  apply in_combine_nth in Hin. destruct Hin as (j & Hp & Hr).
  rewrite nth_error_map in Hp.
  destruct (nth_error its j) as [item |] eqn:Hj; [| discriminate].
  inversion Hp; subst p.
  destruct (N j item Hj) as (r' & Hr' & _ & Hrow).
  rewrite Hr in Hr'. inversion Hr'; subst r'. simpl. auto.
Qed.

(** All the feeds are fetched; the join fails when one of them fails. *)
Lemma Promise_all_parseURL (svcs : list Service) (w : World) :
  Promise_all
    (map (fun service =>
            result <- parser_parseURL env (feed_url service) ;;
            ret (result, svc_id service)) svcs) w
  = (if forallb (feed_parses env) svcs
     then Return (map (fun s => (feed_of env s, svc_id s)) svcs)
     else Throw "Error: feed could not be fetched or parsed",
     set_trace (trace w ++ map FeedFetch (map feed_url svcs)) w).
Proof.
  revert w. induction svcs as [| s svcs IH]; intros w.
  - simpl. unfold ret, set_trace. rewrite app_nil_r. now destruct w.
  - cbn [map Promise_all forallb]. unfold bind at 1.
    unfold parser_parseURL at 1. unfold bind at 1. unfold log at 1.
    unfold feed_parses at 1. unfold feed_of at 1.
    destruct (parseURL env (feed_url s)) as [f |]; simpl.
    + rewrite IH.
      destruct (forallb (feed_parses env) svcs); unfold set_trace; simpl;
        rewrite <- app_assoc; reflexivity.
    + rewrite IH.
      destruct (forallb (feed_parses env) svcs); unfold set_trace; simpl;
        rewrite <- app_assoc; reflexivity.
Qed.

(** Every service's batch runs, with batches of ten. *)
Lemma Promise_all_processBatch (parsed : list (Feed * Z)) (w : World) :
  exists l w' tr,
    Promise_all
      (map (fun service : Feed * Z =>
              processBatch env (S (length (items (fst service)))) (snd service)
                           (items (fst service)) 10) parsed) w
    = (Return l, w')
    /\ trace w' = trace w ++ tr
    /\ sent_requests tr
       = flat_map (fun s => map (rpc_params (snd s)) (items (fst s))) parsed
    /\ length (settled_requests tr) = length (sent_requests tr)
    /\ (forall p r, In (p, r) (settled_requests tr) -> error r = None ->
          has_row (p_service_id p) (p_guid p) (service_events w') = true)
    /\ feeds_fetched tr = []
    /\ batch_frame w w'.
Proof.
  revert w. induction parsed as [| s parsed IH]; intros w.
  - exists [], w, []. simpl. unfold ret. rewrite app_nil_r.
    repeat split; auto using batch_frame_refl; contradiction.
  - destruct (@processBatch_spec (snd s) (items (fst s)) 10
                (S (length (items (fst s)))) w)
      as (rs & w1 & tr1 & E1 & T1 & S1 & L1 & R1 & G1 & B1); [lia | lia |].
    destruct (IH w1) as (l & w2 & tr2 & E2 & T2 & S2 & L2 & R2 & G2 & B2).
    exists ((snd s, rs) :: l), w2, (tr1 ++ tr2).
    cbn [map Promise_all]. rewrite E1, E2.
    split; [reflexivity |].
    split; [rewrite T2, T1, app_assoc; reflexivity |].
    split; [rewrite sent_requests_app, S1, S2; reflexivity |].
    split.
    { rewrite settled_requests_app, sent_requests_app, !length_app, L1, L2, S1.
      now rewrite length_map. }
    split; [| split; [rewrite feeds_fetched_app, G1, G2; reflexivity
                     | eapply batch_frame_trans; eauto]].
    intros p r Hin He. rewrite settled_requests_app in Hin.
    apply in_app_or in Hin. destruct Hin as [Hin | Hin].
    + destruct B2 as (_ & _ & _ & K). apply K. eauto.
    + eauto.
Qed.

(** Every path through the handler of [/process-feeds]. *)
Lemma process_feeds_cases (w : World) :
  exists w' tr,
    process_feeds env w = (Return tt, w')
    /\ trace w' = trace w ++ tr
    /\ match db_fault env (db_requests w) with
       | Some _ =>
           res w' = Some (500, "Error while processing the feeds")
           /\ feeds_fetched tr = [] /\ sent_requests tr = []
           /\ service_events w' = service_events w
       | None =>
           feeds_fetched tr = map feed_url (services w)
           /\ if forallb (feed_parses env) (services w) then
                res w' = Some (200, "Successfully parsed RSS feeds and items")
                /\ sent_requests tr
                   = flat_map (fun s => map (rpc_params (svc_id s))
                                            (items (feed_of env s))) (services w)
                /\ length (settled_requests tr) = length (sent_requests tr)
                /\ (forall p r, In (p, r) (settled_requests tr) -> error r = None ->
                      has_row (p_service_id p) (p_guid p) (service_events w') = true)
              else
                res w' = Some (500, "Error while processing the feeds")
                /\ sent_requests tr = []
                /\ service_events w' = service_events w
       end.
Proof.
  unfold process_feeds, try_catch, supabase_select_services.
  unfold bind at 1 2 3. unfold log at 1. unfold db_tick at 1.
  cbn [trace services service_events next_id db_requests llm_calls res set_trace].
  destruct (db_fault env (db_requests w)) as [m |] eqn:F.
  - unfold ret at 1. cbn [error data failed]. unfold throw at 1.
    unfold bind, log, res_status_send, ret. simpl.
    eexists _, [_; _]. split; [reflexivity |]. simpl.
    rewrite <- app_assoc. simpl. repeat split; auto.
  - cbn [error data ok]. unfold ret at 1. unfold bind at 1. cbv zeta.
    unfold bind at 1. rewrite Promise_all_parseURL.
    cbn [trace services service_events next_id db_requests llm_calls res set_trace].
    destruct (forallb (feed_parses env) (services w)) eqn:All.
    + set (w1 := set_trace _ _).
      destruct (Promise_all_processBatch
                  (map (fun s => (feed_of env s, svc_id s)) (services w)) w1)
        as (l & w2 & tr & E & T & Sn & L & R & G & B).
      unfold bind at 1. rewrite E. unfold res_status_send.
      eexists _, (SelectServices :: map FeedFetch (map feed_url (services w)) ++ tr).
      split; [reflexivity |]. simpl.
      split; [rewrite T; unfold w1; simpl; rewrite <- !app_assoc; reflexivity |].
      assert (Hf : forall urls, feeds_fetched (map FeedFetch urls) = urls)
        by (induction urls; simpl; congruence).
      assert (Hs : forall urls, sent_requests (map FeedFetch urls) = [])
        by (induction urls; simpl; congruence).
      assert (Hq : forall urls, settled_requests (map FeedFetch urls) = [])
        by (induction urls; simpl; congruence).
      rewrite feeds_fetched_app, sent_requests_app, settled_requests_app.
      rewrite Hf, Hs, Hq, G, app_nil_r. simpl.
      split; [reflexivity |]. split; [reflexivity |].
      split.
      { rewrite Sn. rewrite flat_map_concat_map, map_map.
        now rewrite <- flat_map_concat_map. }
      split; [exact L | exact R].
    + unfold bind, log, res_status_send, ret. simpl.
      eexists _, (SelectServices :: map FeedFetch (map feed_url (services w))
                  ++ [ConsoleError _]).
      split; [reflexivity |]. simpl.
      split; [rewrite <- !app_assoc; reflexivity |].
      assert (Hf : forall urls, feeds_fetched (map FeedFetch urls) = urls)
        by (induction urls; simpl; congruence).
      assert (Hs : forall urls, sent_requests (map FeedFetch urls) = [])
        by (induction urls; simpl; congruence).
      rewrite feeds_fetched_app, sent_requests_app, Hf, Hs. simpl.
      rewrite app_nil_r. auto.
Qed.

End FanOutFacts.

(** C1, against the code.  Three services, the feeds of the first and the
    third parse, the feed of the second cannot be reached: all three feeds
    are fetched, no upsert leaves for any service, the table of events
    stays empty, and the request is answered 500. *)
Lemma one_unreachable_feed_fails_the_fan_out :
  let w' := snd (process_feeds second_feed_down_env world_three) in
  map (feed_parses second_feed_down_env) three_services = [true; false; true]
  /\ db_fault second_feed_down_env (db_requests world_three) = None
  /\ feeds_fetched (trace w') = map feed_url three_services
  /\ sent_requests (trace w') = []
  /\ service_events w' = []
  /\ res w' = Some (500, "Error while processing the feeds").
Proof. vm_compute. repeat split. Qed.

(** C1, as the code has it.  When the list of services does not load,
    [/process-feeds] answers 500 and fetches nothing.  When it loads, the
    feed of every service is fetched.  If every feed parses, an upsert
    leaves for each item of each service, in the order of the services,
    every upsert settles, each one the datastore accepts has its row in
    the table at the end, and the answer is 200.  If the feed of any
    service fails, no upsert leaves for any service, the events are
    untouched and the answer is 500. *)
Theorem process_feeds_all_or_nothing (env : Env) (w : World) :
  exists w' tr,
    process_feeds env w = (Return tt, w')
    /\ trace w' = trace w ++ tr
    /\ match db_fault env (db_requests w) with
       | Some _ =>
           res w' = Some (500, "Error while processing the feeds")
           /\ feeds_fetched tr = [] /\ sent_requests tr = []
           /\ service_events w' = service_events w
       | None =>
           feeds_fetched tr = map feed_url (services w)
           /\ if forallb (feed_parses env) (services w) then
                res w' = Some (200, "Successfully parsed RSS feeds and items")
                /\ sent_requests tr
                   = flat_map (fun s => map (rpc_params (svc_id s))
                                            (items (feed_of env s))) (services w)
                /\ length (settled_requests tr) = length (sent_requests tr)
                /\ (forall p r, In (p, r) (settled_requests tr) -> error r = None ->
                      has_row (p_service_id p) (p_guid p) (service_events w') = true)
              else
                res w' = Some (500, "Error while processing the feeds")
                /\ sent_requests tr = []
                /\ service_events w' = service_events w
       end.
Proof. exact (process_feeds_cases env w). Qed.

(** ** The scenario of the specification

    Service 7 publishes the item g1.  The first ingestion creates the event
    with no structured field; the second ingestion of the same item leaves
    the one row as it is; summarizing it sets the four structured fields to
    the values of the completion. *)
Example scenario_ingest_twice_then_summarize :
  let w1 := snd (processBatch quiet_env 2 7 [item_g1] 10 empty_world) in
  let w2 := snd (processBatch quiet_env 2 7 [item_g1] 10 w1) in
  let w3 := snd (processEvent quiet_env event_g1 w2) in
  service_events w1 = [event_g1]
  /\ service_events w2 = [event_g1]
  /\ service_events w3
     = [mkEvent 1 7 "g1" "Incident" "<p>...</p>" "2024-07-19T14:29:00Z"
                (Some "resolved") (Some "<p>...</p>") (Some 5) (Some "minor")]
  /\ spec_schema_ok example_summary = true.
Proof. vm_compute. repeat split. Qed.

(** * Further properties of the code *)

(** ** processBatch outside the sizes its callers pass *)

Section BatchEdges.

Variable env : Env.

Lemma Promise_all_rpc_nil (w : World) :
  Promise_all_rpc env [] w = (Return [], w).
Proof. reflexivity. Qed.

(** Below index 0 and with a negative step every slice is empty. *)
Lemma slice_below_zero (A : Type) (l : list A) (i b : Z) :
  i < 0 -> b < 0 -> slice l i (i + b) = [].
Proof.
  intros Hi Hb. unfold slice.
  destruct (i <? 0) eqn:E1; [| apply Z.ltb_ge in E1; lia].
  destruct (i + b <? 0) eqn:E2; [| apply Z.ltb_ge in E2; lia].
  replace (Z.to_nat (Z.max (Z.of_nat (length l) + (i + b)) 0
                     - Z.max (Z.of_nat (length l) + i) 0)) with 0%nat by lia.
  reflexivity.
Qed.

(** From index 0 a negative end counts from the end of the array. *)
Lemma slice_negative_end (A : Type) (l : list A) (b : Z) :
  b < 0 -> slice l 0 (0 + b) = firstn (Z.to_nat (Z.of_nat (length l) + b)) l.
Proof.
  intros Hb. unfold slice. change (0 <? 0) with false. cbv iota.
  destruct (0 + b <? 0) eqn:E; [| apply Z.ltb_ge in E; lia].
  rewrite Z.min_l by lia. change (Z.to_nat 0) with 0%nat. cbn [skipn].
  f_equal. lia.
Qed.

Lemma processBatch_loop_stuck (serviceId : Z) (its : list Item.t) (b : Z) :
  b < 0 ->
  forall (fuel : nat) (i : Z) (results : list (Response Z)) (w : World),
    i < 0 ->
    processBatch_loop env fuel serviceId its b i results w = (Diverge, w).
Proof.
  intros Hb. induction fuel as [| fuel IH]; intros i results w Hi;
    [reflexivity |].
  cbn [processBatch_loop].
  destruct (i <? Z.of_nat (length its)) eqn:E; [| apply Z.ltb_ge in E; lia].
  rewrite slice_below_zero by assumption. cbn [map].
  unfold bind. rewrite Promise_all_rpc_nil. apply IH. lia.
Qed.

End BatchEdges.

(** X1. An empty list of items is answered at once whatever the
    batchSize, 0 and negative sizes included, with no request sent.  With
    a negative batchSize and at least one item the call never returns, and
    what it has sent by then is one upsert for each of the first
    [length items + batchSize] items (none when that is not positive). *)
Theorem processBatch_empty_list_and_negative_batchSize
    (env : Env) (serviceId : Z) (w : World) :
  (forall b fuel,
     processBatch env (S fuel) serviceId [] b w = (Return (serviceId, []), w))
  /\ (forall its b fuel,
        b < 0 -> its <> [] ->
        exists w' tr,
          processBatch env (S fuel) serviceId its b w = (Diverge, w')
          /\ trace w' = trace w ++ tr
          /\ sent_requests tr
             = map (rpc_params serviceId)
                   (firstn (Z.to_nat (Z.of_nat (length its) + b)) its)
          /\ length (settled_requests tr) = length (sent_requests tr)).
Proof.
  split.
  - intros b fuel. reflexivity.
  - intros its b fuel Hb Hne.
    unfold processBatch. unfold bind at 1. cbn [processBatch_loop].
    destruct (0 <? Z.of_nat (length its)) eqn:E.
    2:{ apply Z.ltb_ge in E. destruct its; [congruence | simpl in E; lia]. }
    rewrite slice_negative_end by assumption.
    set (g := firstn (Z.to_nat (Z.of_nat (length its) + b)) its).
    destruct (Promise_all_rpc_spec env serviceId g w)
      as (rs & w1 & E1 & L1 & T1 & _).
    unfold bind at 1. rewrite E1.
    rewrite processBatch_loop_stuck by lia.
    exists w1, (group_trace serviceId (g, rs)).
    split; [reflexivity |]. split; [exact T1 |].
    split; [apply group_trace_sent |].
    rewrite group_trace_sent, group_trace_settled, length_combine, !length_map.
    lia.
Qed.

Lemma processBatch_empty_list_and_negative_batchSize_witness :
  exists w' tr,
    processBatch quiet_env 4 7 (numbered_items 5) (-2) empty_world = (Diverge, w')
    /\ trace w' = trace empty_world ++ tr
    /\ sent_requests tr
       = map (rpc_params 7)
             (firstn (Z.to_nat (Z.of_nat (length (numbered_items 5)) + -2))
                     (numbered_items 5))
    /\ length (settled_requests tr) = length (sent_requests tr).
Proof.
  destruct (processBatch_empty_list_and_negative_batchSize quiet_env 7 empty_world)
    as [_ H].
  apply (H (numbered_items 5) (-2) 3%nat).
  - lia.
  - discriminate.
Defined.

(** ** The peak of requests in flight *)

Lemma peak_from_start (n : Z) (tr : list Effect) : n <= peak_from n tr.
Proof. destruct tr; simpl; lia. Qed.

Lemma peak_from_reaches (p : list Effect) :
  forall (n : Z) (q : list Effect), n + in_flight p <= peak_from n (p ++ q).
Proof.
  induction p as [| e p IH]; intros n q.
  - unfold in_flight. simpl fold_left. pose proof (peak_from_start n q). simpl. lia.
  - simpl app. cbn [peak_from].
    specialize (IH (in_flight_step n e) q).
    unfold in_flight in *. cbn [fold_left].
    rewrite (in_flight_shift p (in_flight_step 0 e)).
    assert (in_flight_step n e = n + in_flight_step 0 e)
      by (destruct e; unfold in_flight_step; lia).
    lia.
Qed.

Lemma in_flight_sends (serviceId : Z) (g : list Item.t) :
  in_flight (map (fun item => RpcSent (rpc_params serviceId item)) g)
  = Z.of_nat (length g).
Proof.
  induction g as [| x g IH]; [reflexivity |].
  change (in_flight ([RpcSent (rpc_params serviceId x)]
                     ++ map (fun item => RpcSent (rpc_params serviceId item)) g)
          = Z.of_nat (S (length g))).
  rewrite in_flight_app, IH. unfold in_flight. cbn [fold_left].
  unfold in_flight_step. lia.
Qed.

Lemma group_within_concat (A B : Type) (groups : list (list A * B)) (g : list A * B) :
  In g groups -> (length (fst g) <= length (concat (map fst groups)))%nat.
Proof.
  induction groups as [| h groups IH]; intros H; [contradiction |].
  simpl. rewrite length_app. destruct H as [-> | H]; [lia |].
  specialize (IH H). lia.
Qed.

(** X2. The bound of batchSize on the requests in flight is reached as
    far as there are items: for a batchSize of at least 1 the peak over
    the whole call is exactly the smaller of batchSize and the number of
    items. *)
Theorem processBatch_peak_is_min_of_batchSize_and_items
    (env : Env) (serviceId : Z) (its : list Item.t) (b : Z) (fuel : nat)
    (w : World) :
  1 <= b -> (length its < fuel)%nat ->
  exists results w' tr,
    processBatch env fuel serviceId its b w = (Return (serviceId, results), w')
    /\ trace w' = trace w ++ tr
    /\ peak_in_flight tr = Z.min b (Z.of_nat (length its)).
Proof.
  intros Hb Hfuel.
  destruct (@processBatch_loop_spec env serviceId its b Hb fuel 0%nat [] w)
    as (groups & w' & E & C & F & Fl & T & _); [lia |].
  simpl in E, C.
  exists (concat (map snd groups)), w', (flat_map (group_trace serviceId) groups).
  unfold processBatch, bind. rewrite E. unfold ret.
  split; [reflexivity |]. split; [exact T |].
  set (m := Nat.min (Z.to_nat b) (length its)).
  assert (Hm : Z.min b (Z.of_nat (length its)) = Z.of_nat m) by (unfold m; lia).
  assert (Hm' : m = Nat.min (Z.to_nat b) (length its)) by reflexivity.
  rewrite Hm. apply Z.le_antisymm.
  - unfold peak_in_flight.
    apply (@peak_from_bound (Z.of_nat m) _ 0 []); [reflexivity |].
    intros p q H. simpl in H.
    apply (@groups_bound_in_flight serviceId m groups) with (q := q); [| exact H].
    rewrite Forall_forall in F |- *. intros g Hg.
    destruct (F g Hg) as [[H1 H2] H3].
    pose proof (group_within_concat groups g Hg) as H4. rewrite C in H4.
    unfold m. repeat split; auto; lia.
  - unfold peak_in_flight.
    destruct groups as [| [g1 rs1] rest].
    + simpl in C. unfold m. rewrite <- C. simpl. lia.
    + assert (Hg1 : length g1 = m).
      { assert (HN : length its = (length g1 + length (concat (map fst rest)))%nat)
          by (rewrite <- C; apply length_app).
        clearbody m. clear C E T.
        inversion F as [| ? ? [[H1 H2] _] Frest]. cbn [fst] in H1, H2.
        destruct Fl as [Hfull _].
        destruct rest as [| [g2 rs2] rest'].
        - simpl in HN. lia.
        - inversion Frest as [| ? ? [[H3 _] _] _]. cbn [fst] in H3.
          simpl in HN, Hfull. rewrite length_app in HN. lia. }
      simpl flat_map. unfold group_trace at 1. cbn [fst snd].
      rewrite <- app_assoc.
      pose proof (peak_from_reaches
                    (map (fun item => RpcSent (rpc_params serviceId item)) g1) 0
                    (map (fun pr => RpcSettled (rpc_params serviceId (fst pr)) (snd pr))
                         (combine g1 rs1)
                     ++ flat_map (group_trace serviceId) rest)) as H.
      rewrite in_flight_sends, Hg1 in H. lia.
Qed.

Lemma processBatch_peak_is_min_of_batchSize_and_items_witness :
  exists results w' tr,
    processBatch quiet_env 4 7 (numbered_items 3) 10 empty_world
    = (Return (7, results), w')
    /\ trace w' = trace empty_world ++ tr
    /\ peak_in_flight tr = Z.min 10 (Z.of_nat (length (numbered_items 3))).
Proof.
  apply (@processBatch_peak_is_min_of_batchSize_and_items
           quiet_env 7 (numbered_items 3) 10 4%nat empty_world).
  - lia.
  - simpl. lia.
Defined.

(** ** The batchSize does not change the outcome *)

Lemma same_tables_refl (w : World) : same_tables w w.
Proof. unfold same_tables; auto 7. Qed.

Lemma same_tables_sym (w1 w2 : World) : same_tables w1 w2 -> same_tables w2 w1.
Proof. unfold same_tables; intuition congruence. Qed.

Lemma same_tables_trans (w1 w2 w3 : World) :
  same_tables w1 w2 -> same_tables w2 w3 -> same_tables w1 w3.
Proof. unfold same_tables; intuition congruence. Qed.

Lemma same_tables_set_trace (t : list Effect) (w : World) :
  same_tables (set_trace t w) w.
Proof. unfold same_tables, set_trace; simpl; auto 7. Qed.

Section BatchSizeFacts.

Variable env : Env.

(** A settling upsert reads and writes the tables only. *)
Lemma rpc_settle_same_tables (p : RpcParams) (w1 w2 : World) :
  same_tables w1 w2 ->
  exists r w1' w2',
    rpc_settle env p w1 = (Return r, w1')
    /\ rpc_settle env p w2 = (Return r, w2')
    /\ same_tables w1' w2'.
Proof.
  intros (A & B & C & D & E & F).
  unfold rpc_settle, bind, db_tick. simpl. rewrite <- D.
  destruct (db_fault env (db_requests w1)) as [m |].
  - eexists _, _, _. unfold log, ret, set_trace; simpl.
    split; [reflexivity |]. split; [reflexivity |].
    unfold same_tables; simpl. auto 7.
  - simpl. rewrite <- B, <- C.
    destruct (upsert_service_event p (service_events w1) (next_id w1))
      as [[tbl next] rowId].
    eexists _, _, _. unfold log, ret, set_trace, set_events; simpl.
    split; [reflexivity |]. split; [reflexivity |].
    unfold same_tables; simpl. auto 7.
Qed.

Lemma for_each_rpc_settle_same_tables (ps : list RpcParams) (w1 w2 : World) :
  same_tables w1 w2 ->
  exists rs w1' w2',
    for_each (rpc_settle env) ps w1 = (Return rs, w1')
    /\ for_each (rpc_settle env) ps w2 = (Return rs, w2')
    /\ same_tables w1' w2'.
Proof.
  revert w1 w2. induction ps as [| p ps IH]; intros w1 w2 H.
  - exists [], w1, w2. auto.
  - destruct (rpc_settle_same_tables p H) as (r & a1 & a2 & E1 & E2 & H').
    destruct (IH a1 a2 H') as (rs & b1 & b2 & F1 & F2 & H'').
    exists (r :: rs), b1, b2. simpl. unfold bind.
    rewrite E1, E2, F1, F2. auto.
Qed.

Lemma for_each_rpc_settle_app (ps qs : list RpcParams) (w : World) :
  exists rs1 rs2 w1 w2,
    for_each (rpc_settle env) ps w = (Return rs1, w1)
    /\ for_each (rpc_settle env) qs w1 = (Return rs2, w2)
    /\ for_each (rpc_settle env) (ps ++ qs) w = (Return (rs1 ++ rs2), w2).
Proof.
  revert w. induction ps as [| p ps IH]; intros w.
  - destruct (for_each_rpc_settle env qs w) as (rs & w' & E & _).
    exists [], rs, w, w'. auto.
  - destruct (rpc_settle_spec env p w) as (r & a & E & _).
    destruct (IH a) as (rs1 & rs2 & w1 & w2 & F1 & F2 & F3).
    exists (r :: rs1), rs2, w1, w2. simpl. unfold bind.
    rewrite E, F1, F3. auto.
Qed.

(** Whatever the width of the batches, the loop answers and leaves in the
    tables what settling the upserts one after the other does. *)
Lemma processBatch_loop_in_turn (serviceId : Z) (its : list Item.t) (b : Z) :
  1 <= b ->
  forall (fuel k : nat) (results : list (Response Z)) (w w0 : World),
    (length its - k < fuel)%nat ->
    same_tables w w0 ->
    exists rs w' w0',
      processBatch_loop env fuel serviceId its b (Z.of_nat k) results w
      = (Return (results ++ rs), w')
      /\ for_each (rpc_settle env) (map (rpc_params serviceId) (skipn k its)) w0
         = (Return rs, w0')
      /\ same_tables w' w0'.
Proof.
  intros Hb. induction fuel as [| fuel IH]; intros k results w w0 Hfuel Hs; [lia |].
  cbn [processBatch_loop].
  destruct (Z.of_nat k <? Z.of_nat (length its)) eqn:Hlt.
  - apply Z.ltb_lt in Hlt. assert (Hk : (k < length its)%nat) by lia.
    rewrite slice_group by assumption.
    set (nb := Z.to_nat b). set (g := firstn nb (skipn k its)).
    assert (Hsplit : skipn k its = g ++ skipn (k + nb) its).
    { unfold g. rewrite <- (firstn_skipn nb (skipn k its)) at 1.
      rewrite skipn_skipn. do 2 f_equal. lia. }
    rewrite Hsplit, map_app.
    destruct (for_each_rpc_settle_app (map (rpc_params serviceId) g)
                (map (rpc_params serviceId) (skipn (k + nb) its)) w0)
      as (rs1 & rs2 & a1 & a2 & F1 & F2 & F3).
    unfold bind at 1. unfold Promise_all_rpc. unfold bind at 1.
    rewrite for_each_rpc_send.
    assert (Hs' : same_tables
                    (set_trace (trace w ++ map RpcSent (map (rpc_params serviceId) g)) w)
                    w0).
    { eapply same_tables_trans; [apply same_tables_set_trace | exact Hs]. }
    destruct (for_each_rpc_settle_same_tables (map (rpc_params serviceId) g) Hs')
      as (rs & c1 & c2 & G1 & G2 & Hc).
    rewrite F1 in G2. inversion G2; subst rs c2.
    rewrite G1.
    replace (Z.of_nat k + b) with (Z.of_nat (k + nb)) by (unfold nb; lia).
    assert (Hg : (1 <= length g)%nat).
    { unfold g. rewrite length_firstn, length_skipn. unfold nb. lia. }
    destruct (IH (k + nb)%nat (results ++ rs1) c1 a1) as (rs' & w' & a' & E & F & Hfin);
      [unfold nb; lia | exact Hc |].
    rewrite F2 in F. inversion F; subst rs' a'.
    exists (rs1 ++ rs2), w', a2. rewrite E, F3, <- app_assoc. auto.
  - apply Z.ltb_ge in Hlt. rewrite skipn_all2 by lia. simpl.
    exists [], w, w0. unfold ret. rewrite app_nil_r. auto.
Qed.

End BatchSizeFacts.

(** X3. Two calls of [processBatch] on the same items that differ only in
    a batchSize of at least 1 return the same outcomes, in the same order,
    and leave the same tables and the same count of datastore requests:
    the batchSize only decides how many requests are in flight together. *)
Theorem processBatch_outcome_independent_of_batchSize
    (env : Env) (serviceId : Z) (its : list Item.t) (b1 b2 : Z)
    (fuel1 fuel2 : nat) (w : World) :
  1 <= b1 -> 1 <= b2 ->
  (length its < fuel1)%nat -> (length its < fuel2)%nat ->
  fst (processBatch env fuel1 serviceId its b1 w)
  = fst (processBatch env fuel2 serviceId its b2 w)
  /\ same_tables (snd (processBatch env fuel1 serviceId its b1 w))
                 (snd (processBatch env fuel2 serviceId its b2 w)).
Proof.
  intros H1 H2 F1 F2.
  destruct (@processBatch_loop_in_turn env serviceId its b1 H1 fuel1 0%nat [] w w)
    as (rs1 & w1 & a1 & E1 & S1 & T1); [lia | apply same_tables_refl |].
  destruct (@processBatch_loop_in_turn env serviceId its b2 H2 fuel2 0%nat [] w w)
    as (rs2 & w2 & a2 & E2 & S2 & T2); [lia | apply same_tables_refl |].
  rewrite S1 in S2. inversion S2; subst rs2 a2.
  unfold processBatch, bind. simpl Z.of_nat in E1, E2.
  rewrite E1, E2. simpl. split; [reflexivity |].
  eapply same_tables_trans; [exact T1 | apply same_tables_sym; exact T2].
Qed.

Lemma processBatch_outcome_independent_of_batchSize_witness :
  fst (processBatch quiet_env 4 7 (numbered_items 3) 1 empty_world)
  = fst (processBatch quiet_env 4 7 (numbered_items 3) 10 empty_world)
  /\ same_tables (snd (processBatch quiet_env 4 7 (numbered_items 3) 1 empty_world))
                 (snd (processBatch quiet_env 4 7 (numbered_items 3) 10 empty_world)).
Proof.
  apply (@processBatch_outcome_independent_of_batchSize
           quiet_env 7 (numbered_items 3) 1 10 4%nat 4%nat empty_world).
  - lia.
  - lia.
  - simpl. lia.
  - simpl. lia.
Defined.

(** ** Summaries and the ingested columns *)

Lemma set_column_structured_keeps_raw (k : string) (v : json) (e e' : Event) :
  existsb (String.eqb k) structured_columns = true ->
  set_column k v e = Some e' -> raw e' = raw e.
Proof.
  unfold structured_columns. cbn [existsb]. intros H.
  repeat (apply orb_prop in H; destruct H as [H | H]);
    try discriminate;
    apply String.eqb_eq in H; subst k;
    unfold set_column; simpl; destruct v; intros E; inversion E; reflexivity.
Qed.

Lemma apply_payload_structured_keeps_raw (payload : list (string * json)) :
  names_structured_only payload = true ->
  forall e e', apply_payload payload e = Some e' -> raw e' = raw e.
Proof.
  induction payload as [| [k v] payload IH]; intros H e e' E; simpl in *.
  - now inversion E.
  - apply andb_prop in H. destruct H as [Hk H].
    destruct (set_column k v e) as [e1 |] eqn:S1; [| discriminate].
    rewrite (IH H _ _ E).
    eapply set_column_structured_keeps_raw; [exact Hk | exact S1].
Qed.

Lemma update_rows_structured_keeps_raw (payload : list (string * json))
    (eventId : Z) (tbl tbl' : list Event) :
  names_structured_only payload = true ->
  update_rows payload eventId tbl = Some tbl' ->
  map raw tbl' = map raw tbl.
Proof.
  intros H. unfold update_rows.
  destruct (apply_payload payload blank_event); [| discriminate].
  revert tbl'. induction tbl as [| r tbl IH]; intros tbl' E; simpl in E.
  - now inversion E.
  - destruct (update_matching payload eventId tbl) as [rest |].
    + destruct (id r =? eventId).
      * destruct (apply_payload payload r) as [r' |] eqn:A; [| discriminate].
        inversion E; subst. simpl. rewrite (IH rest eq_refl).
        now rewrite (apply_payload_structured_keeps_raw _ H _ A).
      * inversion E; subst. simpl. now rewrite (IH rest eq_refl).
    + destruct (id r =? eventId); [destruct (apply_payload payload r) |];
        discriminate.
Qed.

(** X4. When the completion names no property besides the four
    structured fields, a summarization, by [processEvent] or by the
    handler of [/summarize-event], leaves identifier, service, guid, title,
    description and publish date of every row as they were, whether it
    succeeds or fails. *)
Theorem summarization_keeps_ingested_columns (env : Env) (w : World) :
  (forall n d v, llm env n d = LlmText (Some v) ->
                 names_structured_only (spread v) = true) ->
  (forall e, map raw (service_events (snd (processEvent env e w)))
             = map raw (service_events w))
  /\ (forall eventId,
        map raw (service_events (snd (summarize_event env eventId w)))
        = map raw (service_events w)).
Proof.
  intros Honly. split.
  - intros e.
    destruct (processEvent_cases env e w) as (r & w' & tr & E & _ & C).
    rewrite E. simpl.
    destruct (llm env (llm_calls w) (description e)) as [m | [v |]] eqn:L.
    + destruct C as (_ & _ & ->). reflexivity.
    + destruct (truthy v).
      * destruct C as [_ C].
        destruct (db_fault env (db_requests w)).
        -- destruct C as [_ ->]. reflexivity.
        -- destruct (update_rows (spread v) (id e) (service_events w)) eqn:U.
           ++ destruct C as [_ ->].
              eapply update_rows_structured_keeps_raw; eauto.
           ++ destruct C as [_ ->]. reflexivity.
      * destruct C as (_ & _ & ->). reflexivity.
    + destruct C as (_ & _ & ->). reflexivity.
  - intros eventId.
    destruct (summarize_event_cases env eventId w) as (w' & tr & E & _ & _ & _ & C).
    rewrite E. simpl.
    destruct (db_fault env (db_requests w)); [destruct C as (_ & _ & _ & -> & _); reflexivity |].
    destruct (filter _ (service_events w)) as [| e rest];
      [destruct C as (_ & _ & _ & -> & _); reflexivity |].
    destruct C as (_ & _ & C).
    destruct (llm env (llm_calls w) (description e)) as [m | [v |]] eqn:L.
    + destruct C as (_ & -> & _). reflexivity.
    + destruct (truthy v).
      * destruct C as [_ C].
        destruct (db_fault env (S (db_requests w))).
        -- destruct C as [-> _]. reflexivity.
        -- destruct (update_rows (spread v) eventId (service_events w)) eqn:U.
           ++ destruct C as [-> _].
              eapply update_rows_structured_keeps_raw; eauto.
           ++ destruct C as [-> _]. reflexivity.
      * destruct C as (_ & -> & _). reflexivity.
    + destruct C as (_ & -> & _). reflexivity.
Qed.

Lemma summarization_keeps_ingested_columns_witness :
  map raw (service_events (snd (summarize_event quiet_env 1 world_g1)))
  = map raw (service_events world_g1).
Proof.
  destruct (@summarization_keeps_ingested_columns quiet_env world_g1) as [_ H].
  - intros n d v E. inversion E. reflexivity.
  - apply H.
Defined.

(** ** Bulk summarization, one event after the other *)

Section InTurnFacts.

Variable env : Env.

Lemma summarize_in_turn_app (g rest : list Event) (w : World) :
  summarize_in_turn env (g ++ rest) w
  = summarize_in_turn env rest (summarize_in_turn env g w).
Proof. unfold summarize_in_turn. apply fold_left_app. Qed.

Lemma summarize_in_turn_trace (g : list Event) (w : World) :
  exists tr,
    trace (summarize_in_turn env g w) = trace w ++ tr
    /\ length (summaries tr) = length g
    /\ llm_calls (summarize_in_turn env g w) = (llm_calls w + length g)%nat.
Proof.
  revert w. induction g as [| e g IH]; intros w.
  - exists []. simpl. rewrite app_nil_r. auto.
  - destruct (processEvent_spec env e w)
      as (r & w1 & tr1 & E & T & _ & Sm & _ & _ & _ & _ & _ & L & _).
    destruct (IH w1) as (tr2 & T2 & S2 & L2).
    exists (tr1 ++ tr2). cbn [summarize_in_turn fold_left].
    rewrite E. cbn [snd]. fold (summarize_in_turn env g w1).
    rewrite T2, T, app_assoc, summaries_app, length_app, Sm, S2, L2, L.
    simpl. repeat split; auto; lia.
Qed.

(** A group leaves the world its members leave one after the other. *)
Lemma Promise_all_in_turn (g : list Event) (w : World) :
  exists r,
    Promise_all (map (processEvent env) g) w = (r, summarize_in_turn env g w)
    /\ ((exists l, r = Return l) \/ (exists m, r = Throw m)).
Proof.
  revert w. induction g as [| e g IH]; intros w.
  - exists (Return []). split; [reflexivity | eauto].
  - destruct (processEvent_spec env e w) as (r1 & w1 & tr1 & E & _ & _ & _ & R & _).
    destruct (IH w1) as (r2 & E2 & R2).
    cbn [map Promise_all summarize_in_turn fold_left]. rewrite E. cbn [snd].
    fold (summarize_in_turn env g w1). rewrite E2.
    destruct R as [-> | ->]; destruct R2 as [[l ->] | [m ->]]; eauto.
Qed.

(** The loop leaves the world that summarizing, one after the other, the
    events it has attempted leaves. *)
Lemma process_events_loop_in_turn (events : list Event) :
  forall (fuel k : nat) (w : World),
    (length events - k < fuel)%nat ->
    exists r m tr,
      process_events_loop env fuel events (Z.of_nat k) w
      = (r, summarize_in_turn env (firstn m (skipn k events)) w)
      /\ (m <= length (skipn k events))%nat
      /\ trace (summarize_in_turn env (firstn m (skipn k events)) w) = trace w ++ tr
      /\ length (summaries tr) = m
      /\ (r = Return tt /\ m = length (skipn k events) \/ exists e, r = Throw e).
Proof.
  induction fuel as [| fuel IH]; intros k w Hfuel; [lia |].
  cbn [process_events_loop].
  destruct (Z.of_nat k <? Z.of_nat (length events)) eqn:Hlt.
  - apply Z.ltb_lt in Hlt. assert (Hk : (k < length events)%nat) by lia.
    unfold BATCH_SIZE. rewrite slice_group by (assumption || lia).
    change (Z.to_nat 10) with 10%nat.
    set (tail := skipn k events). set (g := firstn 10 tail).
    assert (Hskip : skipn (k + 10) events = skipn 10 tail)
      by (unfold tail; rewrite skipn_skipn; f_equal; lia).
    assert (Hsplit : tail = g ++ skipn (k + 10) events)
      by (rewrite Hskip; unfold g; now rewrite firstn_skipn).
    assert (Hg : length g = Nat.min 10 (length tail))
      by (unfold g; now rewrite length_firstn).
    destruct (Promise_all_in_turn g w) as (r1 & E1 & R1).
    unfold bind. rewrite E1.
    destruct R1 as [[l ->] | [e ->]].
    + replace (Z.of_nat k + 10) with (Z.of_nat (k + 10)) by lia.
      destruct (IH (k + 10)%nat (summarize_in_turn env g w))
        as (r2 & m2 & tr2 & E2 & B2 & T2 & S2 & R2); [lia |].
      set (rest := skipn (k + 10) events) in *.
      destruct (summarize_in_turn_trace g w) as (tr1 & T1 & S1 & _).
      assert (Hlen : length tail = (length g + length rest)%nat)
        by (rewrite Hsplit at 1; apply length_app).
      exists r2, (length g + m2)%nat, (tr1 ++ tr2).
      assert (Hfirst : firstn (length g + m2) tail = g ++ firstn m2 rest).
      { rewrite Hsplit at 1. rewrite firstn_app.
        rewrite (@firstn_all2 _ (length g + m2) g) by lia.
        do 2 f_equal. lia. }
      rewrite Hfirst, summarize_in_turn_app.
      split; [exact E2 |]. split; [lia |].
      split; [rewrite T2, T1, app_assoc; reflexivity |].
      split; [rewrite summaries_app, length_app; lia |].
      destruct R2 as [[-> ->] | [e ->]]; [left; split; [reflexivity | lia] | eauto].
    + destruct (summarize_in_turn_trace g w) as (tr1 & T1 & S1 & _).
      exists (Throw e), (length g), tr1.
      assert (Hfirst : firstn (length g) tail = g)
        by (rewrite Hg; unfold g; now rewrite firstn_min_length).
      rewrite Hfirst.
      split; [reflexivity |]. split; [lia |]. split; [exact T1 |].
      split; [exact S1 | eauto].
  - apply Z.ltb_ge in Hlt.
    exists (Return tt), 0%nat, []. unfold ret.
    rewrite skipn_all2 by lia. simpl. rewrite app_nil_r.
    repeat split; auto.
Qed.

End InTurnFacts.

(** X5. When the unsummarized events load, what [/process-events] leaves
    in the table is what summarizing one at a time, in the order selected,
    the [m] events it has attempted leaves, each run to its end: the
    summaries written before a failure stay written.  All the selected
    events are attempted unless the handler takes its [catch] path. *)
Theorem process_events_leaves_what_summarizing_in_turn_leaves
    (env : Env) (w : World) :
  db_fault env (db_requests w) = None ->
  let events := filter unsummarized (service_events w) in
  let w0 := snd (supabase_select_unsummarized env w) in
  exists m,
    (m <= length events)%nat
    /\ service_events (snd (process_events env w))
       = service_events (summarize_in_turn env (firstn m events) w0)
    /\ llm_calls (snd (process_events env w)) = (llm_calls w + m)%nat
    /\ length (summaries (trace (snd (process_events env w))))
       = (length (summaries (trace w)) + m)%nat
    /\ (fst (process_events env w) = Return None \/ m = length events).
Proof.
  intros F events w0.
  set (w1 := mkWorld (services w) (service_events w) (next_id w)
                     (S (db_requests w)) (llm_calls w)
                     (trace w ++ [SelectUnsummarized]) (res w)).
  assert (Hw0 : w0 = w1).
  { unfold w0, supabase_select_unsummarized, bind, log, db_tick. simpl.
    rewrite F. reflexivity. }
  rewrite Hw0. clear Hw0 w0.
  destruct (@process_events_loop_in_turn env events (S (length events)) 0 w1)
    as (r & m & tr & E & B & T & Sm & R); [lia |].
  change (Z.of_nat 0) with 0 in E. cbn [skipn] in E, B, T, R.
  destruct (summarize_in_turn_trace env (firstn m events) w1) as (tr' & T' & _ & L).
  rewrite length_firstn, Nat.min_l in L by exact B.
  assert (Hpe : process_events env w
                = match r with
                  | Return _ =>
                      (Return (Some ("Successfully processed "
                                     ++ nat_to_string (length events)
                                     ++ " events")%string),
                       summarize_in_turn env (firstn m events) w1)
                  | Throw e =>
                      (log (ConsoleError e) ;;
                       res_status_send 500 "Error while processing the events" ;;
                       ret None) (summarize_in_turn env (firstn m events) w1)
                  | Diverge => (Diverge, summarize_in_turn env (firstn m events) w1)
                  end).
  { unfold process_events, try_catch, supabase_select_unsummarized.
    unfold bind at 1 2 3. unfold log at 1. unfold db_tick at 1.
    cbn [trace services service_events next_id db_requests llm_calls res set_trace].
    rewrite F. cbn [error data ok]. unfold ret at 1. unfold bind at 1.
    fold w1. change (service_events w1) with (service_events w). fold events.
    unfold bind at 1. rewrite E. destruct r; reflexivity. }
  rewrite Hpe. clear Hpe E.
  exists m. split; [exact B |].
  assert (Hsum : length (summaries (trace w1)) = length (summaries (trace w))).
  { unfold w1. simpl. rewrite summaries_app. simpl. now rewrite app_nil_r. }
  destruct R as [[-> ->] | [e ->]].
  - cbn [fst snd]. rewrite T, summaries_app, length_app, Sm, Hsum.
    repeat split; auto.
  - unfold bind, log, res_status_send, ret.
    cbn [fst snd trace service_events llm_calls]. unfold set_trace.
    cbn [trace service_events llm_calls].
    rewrite T, !summaries_app, !length_app, Sm, Hsum. simpl.
    repeat split; auto; lia.
Qed.

Lemma process_events_leaves_what_summarizing_in_turn_leaves_witness :
  exists m,
    (m <= length (filter unsummarized (service_events world_11)))%nat
    /\ service_events (snd (process_events first_reply_broken_env world_11))
       = service_events
           (summarize_in_turn first_reply_broken_env
              (firstn m (filter unsummarized (service_events world_11)))
              (snd (supabase_select_unsummarized first_reply_broken_env world_11)))
    /\ llm_calls (snd (process_events first_reply_broken_env world_11))
       = (llm_calls world_11 + m)%nat
    /\ length (summaries (trace (snd (process_events first_reply_broken_env world_11))))
       = (length (summaries (trace world_11)) + m)%nat
    /\ (fst (process_events first_reply_broken_env world_11) = Return None
        \/ m = length (filter unsummarized (service_events world_11))).
Proof.
  apply (@process_events_leaves_what_summarizing_in_turn_leaves
           first_reply_broken_env world_11).
  reflexivity.
Defined.

(** ** A run in which nothing fails *)

Lemma entry_fits_set_column (k : string) (v : json) (e : Event) :
  entry_fits (k, v) = true ->
  exists e',
    set_column k v e = Some e'
    /\ id e' = id e
    /\ (names_description (k, v) = true -> unsummarized e' = false)
    /\ (names_description (k, v) = false ->
        translated_description e' = translated_description e).
Proof.
  unfold entry_fits, names_description. cbn [fst].
  destruct (String.eqb k "translated_description") eqn:K1.
  { apply String.eqb_eq in K1. subst k. destruct v; try discriminate.
    intros _. eexists. split; [reflexivity |]. simpl.
    repeat split; auto; discriminate. }
  destruct (String.eqb k "status") eqn:K2.
  { apply String.eqb_eq in K2. subst k. simpl.
    destruct v; try discriminate; intros _;
      (eexists; split; [reflexivity |]; simpl; repeat split; auto; discriminate). }
  destruct (String.eqb k "severity") eqn:K3.
  { apply String.eqb_eq in K3. subst k. simpl.
    destruct v; try discriminate; intros _;
      (eexists; split; [reflexivity |]; simpl; repeat split; auto; discriminate). }
  simpl.
  destruct (String.eqb k "accumulated_time_minutes") eqn:K4; [| discriminate].
  apply String.eqb_eq in K4. subst k.
  destruct v; try discriminate; intros _;
    (eexists; split; [reflexivity |]; simpl; repeat split; auto; discriminate).
Qed.

Lemma fitting_payload_applies (m : list (string * json)) :
  forallb entry_fits m = true ->
  forall e, exists e',
    apply_payload m e = Some e'
    /\ id e' = id e
    /\ (unsummarized e' = true ->
        unsummarized e = true /\ existsb names_description m = false).
Proof.
  induction m as [| [k v] m IH]; intros H e.
  - exists e. simpl. auto.
  - cbn [forallb] in H. apply andb_prop in H. destruct H as [Hkv H].
    destruct (entry_fits_set_column k v e Hkv) as (e1 & S1 & I1 & D1 & K1).
    destruct (IH H e1) as (e' & A & I' & U').
    exists e'. cbn [apply_payload]. rewrite S1.
    split; [exact A |]. split; [congruence |].
    intros Hu. destruct (U' Hu) as [Hu1 Hn]. cbn [existsb].
    destruct (names_description (k, v)) eqn:N.
    + rewrite (D1 eq_refl) in Hu1. discriminate.
    + split; [| now rewrite Hn].
      unfold unsummarized in *. now rewrite <- (K1 eq_refl).
Qed.

Lemma filling_update_applies (v : json) (eventId : Z) (tbl : list Event) :
  fills_description v = true ->
  exists tbl',
    update_rows (spread v) eventId tbl = Some tbl'
    /\ Forall2 (summarized_by eventId) tbl tbl'.
Proof.
  destruct v as [| | | | | m]; try discriminate.
  unfold fills_description. intros H. apply andb_prop in H.
  destruct H as [Hfit Hdesc]. cbn [spread]. unfold update_rows.
  destruct (fitting_payload_applies m Hfit blank_event) as (b' & -> & _).
  induction tbl as [| r tbl [tbl' [E F]]].
  - exists []. split; [reflexivity | constructor].
  - cbn [update_matching]. rewrite E.
    destruct (id r =? eventId) eqn:I.
    + destruct (fitting_payload_applies m Hfit r) as (r' & -> & I' & U').
      exists (r' :: tbl'). split; [reflexivity |]. constructor; [| exact F].
      split; [exact I' |]. intros Hu. destruct (U' Hu) as [_ Hn]. congruence.
    + exists (r :: tbl'). split; [reflexivity |]. constructor; [| exact F].
      split; [reflexivity |]. intros Hu. split; [exact Hu |].
      now apply Z.eqb_neq.
Qed.

Section QuietRunFacts.

Variable env : Env.

Hypothesis completions_fill :
  forall n d, exists v, llm env n d = LlmText (Some v) /\ fills_description v = true.

Hypothesis datastore_accepts : forall n, db_fault env n = None.

Lemma processEvent_quiet (e : Event) (w : World) :
  fst (processEvent env e w) = Return tt
  /\ Forall2 (summarized_by (id e)) (service_events w)
             (service_events (snd (processEvent env e w))).
Proof.
  destruct (processEvent_cases env e w) as (r & w' & tr & E & _ & C).
  rewrite E. cbn [fst snd].
  destruct (completions_fill (llm_calls w) (description e)) as (v & L & Hv).
  rewrite L in C.
  assert (Ht : truthy v = true) by (destruct v; try discriminate; reflexivity).
  rewrite Ht, datastore_accepts in C. destruct C as [_ C].
  destruct (filling_update_applies v (id e) (service_events w) Hv) as (tbl' & U & F).
  rewrite U in C. destruct C as [-> ->]. auto.
Qed.

Lemma summarize_in_turn_quiet (events : list Event) :
  forall w,
    (forall row, In row (service_events w) -> unsummarized row = true ->
                 In (id row) (map id events)) ->
    filter unsummarized (service_events (summarize_in_turn env events w)) = []
    /\ length (service_events (summarize_in_turn env events w))
       = length (service_events w).
Proof.
  induction events as [| e events IH]; intros w Inv.
  - simpl. split; [| reflexivity].
    induction (service_events w) as [| r tbl IHt]; [reflexivity |].
    simpl. destruct (unsummarized r) eqn:U.
    + destruct (Inv r (or_introl eq_refl) U).
    + apply IHt. intros row Hin. apply Inv. now right.
  - change (summarize_in_turn env (e :: events) w)
      with (summarize_in_turn env events (snd (processEvent env e w))).
    destruct (processEvent_quiet e w) as [_ F].
    destruct (IH (snd (processEvent env e w))) as [H1 H2].
    + intros row' Hin Hu.
      assert (Hex : exists row, In row (service_events w)
                                /\ summarized_by (id e) row row').
      { clear - F Hin. induction F as [| x y l l' Hxy _ IHF]; [contradiction |].
        destruct Hin as [<- | Hin]; [exists x; split; [now left | exact Hxy] |].
        destruct (IHF Hin) as (row & Hr & Hs). exists row. split; [now right | exact Hs]. }
      destruct Hex as (row & Hr & Hid & Hs).
      destruct (Hs Hu) as [Hu0 Hne].
      specialize (Inv row Hr Hu0). simpl in Inv.
      destruct Inv as [Heq | Hin']; [congruence |]. now rewrite Hid.
    + split; [exact H1 |]. rewrite H2. symmetry.
      clear - F. induction F; simpl; congruence.
Qed.

Lemma Promise_all_quiet (g : list Event) (w : World) :
  exists l,
    Promise_all (map (processEvent env) g) w
    = (Return l, summarize_in_turn env g w).
Proof.
  revert w. induction g as [| e g IH]; intros w.
  - exists []. reflexivity.
  - destruct (processEvent_quiet e w) as [R _].
    destruct (IH (snd (processEvent env e w))) as (l & E).
    change (summarize_in_turn env (e :: g) w)
      with (summarize_in_turn env g (snd (processEvent env e w))).
    cbn [map Promise_all].
    destruct (processEvent env e w) as [r w1]. cbn [fst snd] in *. subst r.
    rewrite E. eauto.
Qed.

Lemma process_events_loop_quiet (events : list Event) :
  forall (fuel k : nat) (w : World),
    (length events - k < fuel)%nat ->
    process_events_loop env fuel events (Z.of_nat k) w
    = (Return tt, summarize_in_turn env (skipn k events) w).
Proof.
  induction fuel as [| fuel IH]; intros k w Hfuel; [lia |].
  cbn [process_events_loop].
  destruct (Z.of_nat k <? Z.of_nat (length events)) eqn:Hlt.
  - apply Z.ltb_lt in Hlt. assert (Hk : (k < length events)%nat) by lia.
    unfold BATCH_SIZE. rewrite slice_group by (assumption || lia).
    change (Z.to_nat 10) with 10%nat.
    destruct (Promise_all_quiet (firstn 10 (skipn k events)) w) as (l & E).
    unfold bind. rewrite E.
    replace (Z.of_nat k + 10) with (Z.of_nat (k + 10)) by lia.
    rewrite IH by lia. f_equal.
    rewrite <- summarize_in_turn_app. f_equal.
    replace (skipn (k + 10) events) with (skipn 10 (skipn k events))
      by (rewrite skipn_skipn; f_equal; lia).
    apply firstn_skipn.
  - apply Z.ltb_ge in Hlt. rewrite skipn_all2 by lia. reflexivity.
Qed.

Lemma process_events_quiet (w : World) :
  let events := filter unsummarized (service_events w) in
  fst (process_events env w)
  = Return (Some ("Successfully processed " ++ nat_to_string (length events)
                  ++ " events")%string)
  /\ filter unsummarized (service_events (snd (process_events env w))) = []
  /\ length (service_events (snd (process_events env w)))
     = length (service_events w)
  /\ llm_calls (snd (process_events env w)) = (llm_calls w + length events)%nat
  /\ res (snd (process_events env w)) = res w.
Proof.
  intros events.
  set (w1 := mkWorld (services w) (service_events w) (next_id w)
                     (S (db_requests w)) (llm_calls w)
                     (trace w ++ [SelectUnsummarized]) (res w)).
  assert (Hpe : process_events env w
                = (Return (Some ("Successfully processed "
                                 ++ nat_to_string (length events)
                                 ++ " events")%string),
                   summarize_in_turn env events w1)).
  { unfold process_events, try_catch, supabase_select_unsummarized.
    unfold bind at 1 2 3. unfold log at 1. unfold db_tick at 1.
    cbn [trace services service_events next_id db_requests llm_calls res set_trace].
    rewrite datastore_accepts. cbn [error data ok]. unfold ret at 1.
    unfold bind at 1. fold w1. change (service_events w1) with (service_events w).
    fold events. unfold bind at 1.
    change 0 with (Z.of_nat 0). rewrite process_events_loop_quiet by lia.
    reflexivity. }
  rewrite Hpe. cbn [fst snd]. split; [reflexivity |].
  destruct (@summarize_in_turn_quiet events w1) as [H1 H2].
  { intros row Hin Hu. apply in_map. apply filter_In. auto. }
  destruct (summarize_in_turn_trace env events w1) as (tr & _ & _ & L).
  split; [exact H1 |]. split; [exact H2 |]. split; [exact L |].
  clear. unfold summarize_in_turn.
  assert (H : forall l w0, res (fold_left (fun w e => snd (processEvent env e w)) l w0)
                           = res w0).
  { induction l as [| e l IH]; intros w0; [reflexivity |]. simpl. rewrite IH.
    destruct (processEvent_spec env e w0)
      as (r & w' & tr & E & _ & _ & _ & _ & _ & _ & _ & _ & _ & _ & R & _).
    now rewrite E. }
  rewrite H. reflexivity.
Qed.

End QuietRunFacts.

(** X6. When every completion answers an object of structured fields with
    values of their columns' kinds and a text for [translated_description],
    and the datastore rejects nothing, [/process-events] attempts every
    selected event, one completion each, leaves no row unsummarized, no
    row added or removed, and ends on its success path, returning the
    summary with the count of events and sending nothing on [res]. *)
Theorem process_events_without_failure_summarizes_everything
    (env : Env) (w : World) :
  (forall n d, exists v, llm env n d = LlmText (Some v)
                         /\ fills_description v = true) ->
  (forall n, db_fault env n = None) ->
  let events := filter unsummarized (service_events w) in
  fst (process_events env w)
  = Return (Some ("Successfully processed " ++ nat_to_string (length events)
                  ++ " events")%string)
  /\ filter unsummarized (service_events (snd (process_events env w))) = []
  /\ length (service_events (snd (process_events env w)))
     = length (service_events w)
  /\ llm_calls (snd (process_events env w)) = (llm_calls w + length events)%nat
  /\ res (snd (process_events env w)) = res w.
Proof.
  intros Hfill Hdb. exact (@process_events_quiet env Hfill Hdb w).
Qed.

Lemma process_events_without_failure_summarizes_everything_witness :
  fst (process_events quiet_env world_11)
  = Return (Some ("Successfully processed "
                  ++ nat_to_string (length (filter unsummarized (service_events world_11)))
                  ++ " events")%string)
  /\ filter unsummarized (service_events (snd (process_events quiet_env world_11))) = []
  /\ length (service_events (snd (process_events quiet_env world_11)))
     = length (service_events world_11)
  /\ llm_calls (snd (process_events quiet_env world_11))
     = (llm_calls world_11 + length (filter unsummarized (service_events world_11)))%nat
  /\ res (snd (process_events quiet_env world_11)) = res world_11.
Proof.
  apply (@process_events_without_failure_summarizes_everything quiet_env world_11).
  - intros n d. exists example_summary. split; reflexivity.
  - intros n. reflexivity.
Defined.

(** ** What the handlers answer *)

(** X7. The handler of [/summarize-event] answers every request, with 200
    or with 500, and ends without an exception.  It answers 200 only
    after one completion and one update; when it answers 500 the table of
    events is as it was. *)
Theorem summarize_event_answers_every_request
    (env : Env) (eventId : Z) (w : World) :
  exists w' tr,
    summarize_event env eventId w = (Return tt, w')
    /\ trace w' = trace w ++ tr
    /\ ((res w' = Some (200, "Successfully summarized event "
                             ++ Z_to_string eventId)%string
         /\ length (llm_inputs tr) = 1%nat
         /\ length (updates tr) = 1%nat)
        \/ (res w' = Some (500, "Error: Unable to summarize "
                                ++ Z_to_string eventId)%string
            /\ service_events w' = service_events w)).
Proof.
  destruct (summarize_event_cases env eventId w) as (w' & tr & E & T & _ & _ & C).
  exists w', tr. split; [exact E |]. split; [exact T |].
  destruct (db_fault env (db_requests w)); [right; tauto |].
  destruct (filter _ (service_events w)) as [| e rest]; [right; tauto |].
  destruct C as (L & _ & C).
  destruct (llm env (llm_calls w) (description e)) as [m | [v |]];
    [right; tauto | | right; tauto].
  destruct (truthy v); [| right; tauto].
  destruct C as [U C].
  destruct (db_fault env (S (db_requests w))); [right; tauto |].
  destruct (update_rows (spread v) eventId (service_events w)); [| right; tauto].
  left. rewrite L, U. simpl. tauto.
Qed.

(** X8. When the unsummarized events cannot be loaded, [/process-events]
    answers 500, logs the datastore's message, returns nothing, calls no
    completion and leaves both tables as they were. *)
Theorem process_events_load_failure_changes_nothing
    (env : Env) (w : World) (m : string) :
  db_fault env (db_requests w) = Some m ->
  exists w',
    process_events env w = (Return None, w')
    /\ res w' = Some (500, "Error while processing the events")
    /\ trace w' = trace w ++ [SelectUnsummarized;
                              ConsoleError ("Failed to fetch service events: " ++ m)]
    /\ service_events w' = service_events w
    /\ services w' = services w
    /\ llm_calls w' = llm_calls w.
Proof.
  intros F. unfold process_events, try_catch, supabase_select_unsummarized.
  unfold bind at 1 2 3. unfold log at 1. unfold db_tick at 1.
  cbn [trace services service_events next_id db_requests llm_calls res set_trace].
  rewrite F. unfold ret at 1. cbn [error data failed]. unfold throw at 1.
  unfold bind, log, res_status_send, ret, set_trace.
  cbn [trace services service_events next_id db_requests llm_calls res].
  eexists. split; [reflexivity |].
  cbn [trace services service_events next_id db_requests llm_calls res].
  rewrite <- app_assoc. repeat split; reflexivity.
Qed.

Lemma process_events_load_failure_changes_nothing_witness :
  exists w',
    process_events (mkEnv (fun _ => Some "connection refused")
                          (fun _ _ => LlmText None) (fun _ => None)) world_g1
    = (Return None, w')
    /\ res w' = Some (500, "Error while processing the events")
    /\ trace w' = trace world_g1
                  ++ [SelectUnsummarized;
                      ConsoleError ("Failed to fetch service events: "
                                    ++ "connection refused")]
    /\ service_events w' = service_events world_g1
    /\ services w' = services world_g1
    /\ llm_calls w' = llm_calls world_g1.
Proof.
  apply (@process_events_load_failure_changes_nothing
           (mkEnv (fun _ => Some "connection refused")
                  (fun _ _ => LlmText None) (fun _ => None))
           world_g1 "connection refused").
  reflexivity.
Defined.

(** ** The scheduler *)

(** X9. A tick of the scheduler never ends with an exception, whatever
    the request does, and leaves [lastSuccessfulCronJob] as it was or sets
    it to the time of the tick.  Against this server's own
    [/process-feeds] the tick returns, and it sets
    [lastSuccessfulCronJob] exactly when the list of services loads and
    the feed of every service parses; a rejected upsert does not keep it
    from doing so. *)
Theorem cron_job_records_success_of_the_fan_out (toISOString : Z -> string) :
  (forall fetch now last w,
     (forall e, fst (fst (cron_job toISOString fetch now last w)) <> Throw e)
     /\ (snd (cron_job toISOString fetch now last w) = last
         \/ snd (cron_job toISOString fetch now last w) = Some now))
  /\ (forall env now last w,
        fst (fst (cron_job toISOString (fetch_this_server (process_feeds env))
                           now last w)) = Return tt
        /\ snd (cron_job toISOString (fetch_this_server (process_feeds env))
                         now last w)
           = match db_fault env (db_requests w) with
             | None => if forallb (feed_parses env) (services w)
                       then Some now else last
             | Some _ => last
             end).
Proof.
  split.
  - intros fetch now last w. unfold cron_job, log. cbn [fst snd].
    destruct (fetch _) as [[response | e |] w1].
    + destruct (negb (response_ok response)); unfold bind; simpl;
        (split; [intros e0 H0; discriminate H0
                | (left; reflexivity) || (right; reflexivity)]).
    + cbn [fst snd]. split; [intros e0 H0; discriminate H0 | left; reflexivity].
    + cbn [fst snd]. split; [intros e0 H0; discriminate H0 | left; reflexivity].
  - intros env now last w.
    assert (H : exists w2,
               cron_job toISOString (fetch_this_server (process_feeds env)) now last w
               = (Return tt, w2,
                  match db_fault env (db_requests w) with
                  | None => if forallb (feed_parses env) (services w)
                            then Some now else last
                  | Some _ => last
                  end)).
    { unfold cron_job. unfold log at 1. unfold fetch_this_server.
      cbn [trace services service_events next_id db_requests llm_calls res set_trace].
      set (w0 := mkWorld _ _ _ _ _ _ None).
      destruct (process_feeds_cases env w0) as (w' & tr & E & _ & C).
      rewrite E.
      change (db_requests w0) with (db_requests w) in C.
      change (services w0) with (services w) in C.
      destruct (db_fault env (db_requests w)).
      + destruct C as [-> _]. simpl. eexists. reflexivity.
      + destruct C as [_ C].
        destruct (forallb (feed_parses env) (services w)).
        * destruct C as [-> _]. simpl. eexists. reflexivity.
        * destruct C as [-> _]. simpl. eexists. reflexivity. }
    destruct H as [w2 ->]. split; reflexivity.
Qed.

(** ** The older copy of the handlers *)

Lemma external_app (p q : list Effect) :
  external (p ++ q) = external p ++ external q.
Proof. apply filter_app. Qed.

Section LegacyFacts.

Variable env : Env.
Variable inspect_results : list (Response Z) -> string.
Variable memory_report : string.

Lemma for_each_report_batch (l : list (Z * list (Response Z))) (w : World) :
  for_each (report_batch inspect_results) l w
  = (Return (map (fun _ => tt) l), set_trace (trace w ++ report_lines inspect_results l) w).
Proof.
  revert w. induction l as [| r l IH]; intros w.
  - simpl. unfold ret, set_trace. rewrite app_nil_r. now destruct w.
  - cbn [for_each]. unfold bind at 1. unfold report_batch at 1.
    unfold bind at 1. unfold log at 1. cbv zeta. unfold log at 1.
    unfold bind at 1. rewrite IH. unfold ret, set_trace. simpl.
    rewrite <- !app_assoc. reflexivity.
Qed.

Lemma external_report_lines (l : list (Z * list (Response Z))) :
  external (report_lines inspect_results l) = [].
Proof. induction l as [| r l IH]; simpl; auto. Qed.

Lemma process_feeds_value (w : World) :
  process_feeds env w
  = match db_fault env (db_requests w) with
    | Some m =>
        answer_500 m
          (mkWorld (services w) (service_events w) (next_id w)
                   (S (db_requests w)) (llm_calls w)
                   (trace w ++ [SelectServices]) (res w))
    | None =>
        if forallb (feed_parses env) (services w) then
          match fan_out env w with
          | (Return _, w2) =>
              res_status_send 200 "Successfully parsed RSS feeds and items" w2
          | (Throw e, w2) => answer_500 e w2
          | (Diverge, w2) => (Diverge, w2)
          end
        else answer_500 "Error: feed could not be fetched or parsed" (after_fetches w)
    end.
Proof.
  unfold process_feeds, try_catch, supabase_select_services.
  unfold bind at 1 2 3. unfold log at 1. unfold db_tick at 1.
  cbn [trace services service_events next_id db_requests llm_calls res set_trace].
  destruct (db_fault env (db_requests w)) as [m |].
  - reflexivity.
  - cbn [error data ok]. unfold ret at 1. unfold bind at 1. cbv zeta.
    unfold bind at 1. rewrite Promise_all_parseURL.
    cbn [trace services service_events next_id db_requests llm_calls res set_trace].
    destruct (forallb (feed_parses env) (services w)).
    + unfold bind at 1. unfold fan_out, after_fetches.
      destruct (Promise_all _ _) as [[l | e |] w2]; reflexivity.
    + reflexivity.
Qed.

Lemma process_feeds_legacy_value (w : World) :
  process_feeds_legacy env inspect_results memory_report w
  = match db_fault env (db_requests w) with
    | Some m =>
        (answer_500 m ;; memory_lines memory_report)
          (mkWorld (services w) (service_events w) (next_id w)
                   (S (db_requests w)) (llm_calls w)
                   (trace w ++ [SelectServices]) (res w))
    | None =>
        if forallb (feed_parses env) (services w) then
          match fan_out env w with
          | (Return l, w2) =>
              (res_status_send 200 "Successfully parsed RSS feeds and items" ;;
               memory_lines memory_report)
                (set_trace (trace w2 ++ report_lines inspect_results l) w2)
          | (Throw e, w2) => (answer_500 e ;; memory_lines memory_report) w2
          | (Diverge, w2) => (Diverge, w2)
          end
        else (answer_500 "Error: feed could not be fetched or parsed" ;;
              memory_lines memory_report) (after_fetches w)
    end.
Proof.
  unfold process_feeds_legacy, try_finally, try_catch, supabase_select_services.
  unfold bind at 1 2 3. unfold log at 1. unfold db_tick at 1.
  cbn [trace services service_events next_id db_requests llm_calls res set_trace].
  destruct (db_fault env (db_requests w)) as [m |].
  - reflexivity.
  - cbn [error data ok]. unfold ret at 1. unfold bind at 1. cbv zeta.
    unfold bind at 1. rewrite Promise_all_parseURL.
    cbn [trace services service_events next_id db_requests llm_calls res set_trace].
    destruct (forallb (feed_parses env) (services w)).
    + unfold bind at 1. unfold fan_out, after_fetches.
      destruct (Promise_all _ _) as [[l | e |] w2]; try reflexivity.
      unfold bind at 1. rewrite for_each_report_batch. reflexivity.
    + reflexivity.
Qed.

(** The two copies of [/process-feeds] side by side. *)
Lemma process_feeds_legacy_agrees (w : World) :
  exists wl wc,
    process_feeds_legacy env inspect_results memory_report w = (Return tt, wl)
    /\ process_feeds env w = (Return tt, wc)
    /\ same_tables wl wc
    /\ external (trace wl) = external (trace wc).
Proof.
  rewrite process_feeds_legacy_value, process_feeds_value.
  destruct (db_fault env (db_requests w)) as [m |].
  - unfold answer_500, memory_lines, bind, log, res_status_send, set_trace.
    cbn [trace services service_events next_id db_requests llm_calls res].
    eexists _, _. split; [reflexivity |]. split; [reflexivity |].
    split; [unfold same_tables; simpl; auto 7 |].
    cbn [trace]. rewrite !external_app. simpl. now rewrite !app_nil_r.
  - destruct (forallb (feed_parses env) (services w)).
    + destruct (Promise_all_processBatch env
                  (map (fun s => (feed_of env s, svc_id s)) (services w))
                  (after_fetches w)) as (l & w2 & tr & E & _).
      unfold fan_out. rewrite E.
      unfold memory_lines, bind, log, res_status_send, set_trace.
      cbn [trace services service_events next_id db_requests llm_calls res].
      eexists _, _. split; [reflexivity |]. split; [reflexivity |].
      split; [unfold same_tables; simpl; auto 7 |].
      cbn [trace]. rewrite !external_app, external_report_lines. simpl.
      now rewrite !app_nil_r.
    + unfold answer_500, memory_lines, bind, log, res_status_send, set_trace.
      cbn [trace services service_events next_id db_requests llm_calls res].
      eexists _, _. split; [reflexivity |]. split; [reflexivity |].
      split; [unfold same_tables; simpl; auto 7 |].
      cbn [trace]. rewrite !external_app. simpl. now rewrite !app_nil_r.
Qed.

(** What the older handler answers. *)
Lemma process_feeds_legacy_answer (w : World) :
  exists w',
    process_feeds_legacy env inspect_results memory_report w = (Return tt, w')
    /\ res w'
       = match db_fault env (db_requests w) with
         | None => if forallb (feed_parses env) (services w)
                   then Some (200, "Successfully parsed RSS feeds and items")
                   else Some (500, "Error while processing the feeds")
         | Some _ => Some (500, "Error while processing the feeds")
         end.
Proof.
  destruct (process_feeds_legacy_agrees w) as (wl & wc & El & Ec & St & _).
  destruct (process_feeds_cases env w) as (w' & tr & E & _ & C).
  rewrite Ec in E. inversion E; subst w'.
  exists wl. split; [exact El |].
  destruct St as (_ & _ & _ & _ & _ & ->).
  destruct (db_fault env (db_requests w)); [tauto |].
  destruct C as [_ C].
  destruct (forallb (feed_parses env) (services w)); tauto.
Qed.

(** The two copies of [/summarize-event] side by side. *)
Lemma summarize_event_legacy_agrees (eventId : Z) (w : World) :
  exists wl wc,
    summarize_event_legacy env eventId w = (Return tt, wl)
    /\ summarize_event env eventId w = (Return tt, wc)
    /\ same_tables wl wc
    /\ external (trace wl) = external (trace wc).
Proof.
  unfold summarize_event, summarize_event_legacy, try_catch, bind,
    supabase_select_event, log, db_tick, bind. simpl.
  destruct (db_fault env (db_requests w)) as [m |]; simpl.
  - unfold throw, res_status_send. simpl.
    eexists _, _. split; [reflexivity |]. split; [reflexivity |].
    split; [unfold same_tables; simpl; auto 7 |].
    simpl. rewrite !external_app. simpl. now rewrite ?app_nil_r.
  - destruct (filter (fun e => id e =? eventId) (service_events w)) as [| e rest];
      simpl.
    + unfold throw, res_status_send. simpl.
      eexists _, _. split; [reflexivity |]. split; [reflexivity |].
      split; [unfold same_tables; simpl; auto 7 |].
      simpl. rewrite !external_app. simpl. now rewrite ?app_nil_r.
    + unfold ret, anthropic_messages_create, bind, log, llm_tick. simpl.
      destruct (llm env (llm_calls w) (description e)) as [m | [v |]];
        unfold throw, JSON_parse, ret, res_status_send; simpl.
      * eexists _, _. split; [reflexivity |]. split; [reflexivity |].
        split; [unfold same_tables; simpl; auto 7 |].
        simpl. rewrite !external_app. simpl. now rewrite ?app_nil_r.
      * destruct (truthy v); simpl.
        -- unfold supabase_update, bind, log, db_tick. simpl.
           destruct (db_fault env (S (db_requests w))) as [m |]; simpl.
           ++ eexists _, _. split; [reflexivity |]. split; [reflexivity |].
              split; [unfold same_tables; simpl; auto 7 |].
              simpl. rewrite !external_app. simpl. now rewrite ?app_nil_r.
           ++ destruct (update_rows (spread v) eventId (service_events w));
                simpl.
              ** eexists _, _. split; [reflexivity |]. split; [reflexivity |].
                 split; [unfold same_tables; simpl; auto 7 |].
                 simpl. rewrite !external_app. simpl. now rewrite ?app_nil_r.
              ** eexists _, _. split; [reflexivity |]. split; [reflexivity |].
                 split; [unfold same_tables; simpl; auto 7 |].
                 simpl. rewrite !external_app. simpl. now rewrite ?app_nil_r.
        -- eexists _, _. split; [reflexivity |]. split; [reflexivity |].
           split; [unfold same_tables; simpl; auto 7 |].
           simpl. rewrite !external_app. simpl. now rewrite ?app_nil_r.
      * eexists _, _. split; [reflexivity |]. split; [reflexivity |].
        split; [unfold same_tables; simpl; auto 7 |].
        simpl. rewrite !external_app. simpl. now rewrite ?app_nil_r.
Qed.

End LegacyFacts.

(** X10. The older copy of [/process-feeds] answers what the current
    handler answers, leaves both tables, the counters and the response as
    the current handler leaves them, and makes the same requests in the
    same order: the two differ in console lines only, whatever these lines
    print. *)
Theorem older_process_feeds_differs_in_console_lines_only
    (env : Env) (inspect_results : list (Response Z) -> string)
    (memory_report : string) (w : World) :
  fst (process_feeds_legacy env inspect_results memory_report w)
  = fst (process_feeds env w)
  /\ same_tables (snd (process_feeds_legacy env inspect_results memory_report w))
                 (snd (process_feeds env w))
  /\ external (trace (snd (process_feeds_legacy env inspect_results memory_report w)))
     = external (trace (snd (process_feeds env w))).
Proof.
  destruct (process_feeds_legacy_agrees env inspect_results memory_report w)
    as (wl & wc & -> & -> & St & Ex).
  auto.
Qed.

(** X11. The older copy of [/summarize-event] answers what the current
    handler answers, leaves the tables, the counters and the response as
    the current handler leaves them, and makes the same requests in the
    same order: the current handler only adds console lines. *)
Theorem older_summarize_event_differs_in_console_lines_only
    (env : Env) (eventId : Z) (w : World) :
  fst (summarize_event_legacy env eventId w) = fst (summarize_event env eventId w)
  /\ same_tables (snd (summarize_event_legacy env eventId w))
                 (snd (summarize_event env eventId w))
  /\ external (trace (snd (summarize_event_legacy env eventId w)))
     = external (trace (snd (summarize_event env eventId w))).
Proof.
  destruct (summarize_event_legacy_agrees env eventId w)
    as (wl & wc & -> & -> & St & Ex).
  auto.
Qed.

(** X12. A tick of the older scheduler callback never ends with an
    exception, whatever the request does.  Against the older
    [/process-feeds] of this server it returns, and the last line of its
    trace is the completion line with the text of the answer when the list
    of services loads and every feed parses, the error line with status
    500 otherwise. *)
Theorem older_cron_job_logs_the_outcome_of_the_fan_out :
  (forall fetch w e, fst (cron_job_legacy fetch w) <> Throw e)
  /\ (forall env inspect_results memory_report w,
        exists w' before,
          cron_job_legacy
            (fetch_this_server
               (process_feeds_legacy env inspect_results memory_report)) w
          = (Return tt, w')
          /\ trace w'
             = before
               ++ [match db_fault env (db_requests w) with
                   | None =>
                       if forallb (feed_parses env) (services w)
                       then ConsoleLog ("Cron job completed: "
                                        ++ "Successfully parsed RSS feeds and items")
                       else ConsoleError ("Error in cron job: "
                                          ++ "HTTP error! status: 500")
                   | Some _ => ConsoleError ("Error in cron job: "
                                             ++ "HTTP error! status: 500")
                   end]).
Proof.
  split.
  - intros fetch w e. unfold cron_job_legacy, try_catch, bind, log. simpl.
    destruct (fetch _) as [[response | e0 |] w1]; simpl; try discriminate.
    destruct (negb (response_ok response)); simpl; discriminate.
  - intros env inspect_results memory_report w.
    unfold cron_job_legacy, try_catch. unfold bind at 1. unfold log at 1.
    unfold bind at 1. unfold fetch_this_server.
    cbn [trace services service_events next_id db_requests llm_calls res set_trace].
    set (w0 := mkWorld _ _ _ _ _ _ None).
    destruct (process_feeds_legacy_answer env inspect_results memory_report w0)
      as (w' & E & R).
    rewrite E.
    change (db_requests w0) with (db_requests w) in R.
    change (services w0) with (services w) in R.
    rewrite R. clear E R.
    destruct (db_fault env (db_requests w)).
    + exists (set_trace
                (trace w' ++ [ConsoleError ("Error in cron job: "
                                            ++ "HTTP error! status: 500")]) w'),
        (trace w').
      split; reflexivity.
    + destruct (forallb (feed_parses env) (services w)).
      * exists (set_trace
                  (trace w' ++ [ConsoleLog ("Cron job completed: "
                                            ++ "Successfully parsed RSS feeds and items")])
                  w'),
          (trace w').
        split; reflexivity.
      * exists (set_trace
                  (trace w' ++ [ConsoleError ("Error in cron job: "
                                              ++ "HTTP error! status: 500")]) w'),
          (trace w').
        split; reflexivity.
Qed.

(** ** What the caller of processEvent sees *)

(** X13. Whatever fails inside [processEvent] (the completion, the parse,
    a falsy value, the update), its caller sees the one message
    "Error processing event"; otherwise it returns.  Each call logs exactly
    one outcome line, for its own event, and never touches the response
    object. *)
Theorem processEvent_hides_the_cause_from_its_caller
    (env : Env) (e : Event) (w : World) :
  exists r w' tr,
    processEvent env e w = (r, w')
    /\ trace w' = trace w ++ tr
    /\ (r = Return tt \/ r = Throw "Error processing event")
    /\ summaries tr = [(id e, is_return r)]
    /\ res w' = res w.
Proof.
  destruct (processEvent_spec env e w)
    as (r & w' & tr & E & T & _ & Sm & R & _ & _ & _ & _ & _ & _ & P & _).
  exists r, w', tr. auto.
Qed.

Lemma set_column_other_keeps_description (k : string) (v : json) (e e' : Event) :
  String.eqb k "translated_description" = false ->
  set_column k v e = Some e' ->
  translated_description e' = translated_description e.
Proof.
  intros K. unfold set_column.
  repeat match goal with
         | |- context [String.eqb k ?s] => destruct (String.eqb k s) eqn:?
         end;
    try congruence;
    destruct v; intros E; inversion E; reflexivity.
Qed.

Lemma apply_payload_keeps_description (payload : list (string * json)) :
  existsb names_description payload = false ->
  forall e e', apply_payload payload e = Some e' ->
               translated_description e' = translated_description e.
Proof.
  induction payload as [| [k v] payload IH]; intros H e e' E; simpl in *.
  - now inversion E.
  - apply orb_false_elim in H. destruct H as [Hk H].
    unfold names_description in Hk. cbn [fst] in Hk.
    destruct (set_column k v e) as [e1 |] eqn:S1; [| discriminate].
    rewrite (IH H _ _ E).
    eapply set_column_other_keeps_description; [exact Hk | exact S1].
Qed.

Lemma update_rows_keeps_description (payload : list (string * json))
    (eventId : Z) (tbl tbl' : list Event) :
  existsb names_description payload = false ->
  update_rows payload eventId tbl = Some tbl' ->
  map translated_description tbl' = map translated_description tbl.
Proof.
  intros H. unfold update_rows.
  destruct (apply_payload payload blank_event); [| discriminate].
  revert tbl'. induction tbl as [| r tbl IH]; intros tbl' E; simpl in E.
  - now inversion E.
  - destruct (update_matching payload eventId tbl) as [rest |].
    + destruct (id r =? eventId).
      * destruct (apply_payload payload r) as [r' |] eqn:A; [| discriminate].
        inversion E; subst. simpl. rewrite (IH rest eq_refl).
        now rewrite (apply_payload_keeps_description _ H _ A).
      * inversion E; subst. simpl. now rewrite (IH rest eq_refl).
    + destruct (id r =? eventId); [destruct (apply_payload payload r) |];
        discriminate.
Qed.

(** X14. A completion that parses to a truthy value without a property
    [translated_description] leaves that column of every row as it was,
    and yet, when the datastore takes the update, [processEvent] returns
    and logs the event as summarized: the rows that were unsummarized
    still are. *)
Theorem summary_without_description_succeeds_and_changes_no_description
    (env : Env) (e : Event) (w : World) (v : json) (tbl : list Event) :
  llm env (llm_calls w) (description e) = LlmText (Some v) ->
  truthy v = true ->
  existsb names_description (spread v) = false ->
  db_fault env (db_requests w) = None ->
  update_rows (spread v) (id e) (service_events w) = Some tbl ->
  exists w' tr,
    processEvent env e w = (Return tt, w')
    /\ trace w' = trace w ++ tr
    /\ summaries tr = [(id e, true)]
    /\ service_events w' = tbl
    /\ map translated_description (service_events w')
       = map translated_description (service_events w)
    /\ map unsummarized (service_events w')
       = map unsummarized (service_events w).
Proof.
  intros L Ht Hn F U.
  destruct (processEvent_spec env e w)
    as (r & w' & tr & E & T & _ & Sm & _).
  destruct (processEvent_cases env e w) as (r2 & w2 & tr2 & E2 & _ & C).
  rewrite E in E2. inversion E2; subst r2 w2. clear E2.
  rewrite L, Ht, F, U in C. destruct C as (_ & -> & Hw).
  exists w', tr. split; [exact E |]. split; [exact T |].
  split; [exact Sm |]. split; [exact Hw |]. rewrite Hw.
  assert (Hd : map translated_description tbl
               = map translated_description (service_events w))
    by (eapply update_rows_keeps_description; eauto).
  split; [exact Hd |].
  change unsummarized
    with (fun x => match translated_description x with
                   | None => true
                   | Some _ => false
                   end).
  rewrite <- (map_map translated_description
                (fun t : option string => match t with None => true | Some _ => false end)).
  rewrite Hd. now rewrite map_map.
Qed.

Lemma summary_without_description_succeeds_and_changes_no_description_witness :
  exists w' tr,
    processEvent status_only_env event_g1 world_g1 = (Return tt, w')
    /\ trace w' = trace world_g1 ++ tr
    /\ summaries tr = [(id event_g1, true)]
    /\ service_events w'
       = [mkEvent 1 7 "g1" "Incident" "<p>...</p>" "2024-07-19T14:29:00Z"
                  (Some "resolved") None None None]
    /\ map translated_description (service_events w')
       = map translated_description (service_events world_g1)
    /\ map unsummarized (service_events w')
       = map unsummarized (service_events world_g1).
Proof.
  apply (@summary_without_description_succeeds_and_changes_no_description
           status_only_env event_g1 world_g1 status_only
           [mkEvent 1 7 "g1" "Incident" "<p>...</p>" "2024-07-19T14:29:00Z"
                    (Some "resolved") None None None]);
    reflexivity.
Defined.
